(** * PensionCalculator: the payment-schedule calculator of [calculator.py]

    A shallow embedding of [PensionCalculator] (date resolution, the monthly
    generation loop with January indexing, the final sort) together with the
    parts of [dateutil], [pandas] and [numpy] it calls, and the properties of
    the schedule it produces.

    Conventions of the embedding.
    - A [pd.Timestamp] of the contract sheet carries no time of day; it is a
      calendar date [(year, month, day)] with integer fields.  The bounds of
      the Timestamp range are not modelled: a year is any integer.
    - Amounts and rates are [float64] in the program; [np.round(x, 2)] is
      [rint(x * 100) / 100] with [rint] rounding half to even.  They are read
      in two ways.  The exact reading takes them as rationals ([Q]), without
      the representation error of binary floating point; it carries the
      results on dates, order and monotonicity, which do not depend on that
      error.  The binary64 reading ([payment_loop64], on the primitive
      floats) computes the amounts as the program does, bit for bit, and
      carries the results on the values of the amounts.
    - A contract number is an integer. *)

From Stdlib Require Import ZArith QArith Qround Lia Lqa Bool.
From Stdlib Require Import List Permutation Sorted.
From Stdlib Require Import PrimFloat FloatOps SpecFloat Uint63.
From stdpp Require Import strings gmap list.

Set Warnings "-inexact-float".

Open Scope Z_scope.

(** ** Calendar dates *)

Record date := mkdate { year : Z; month : Z; day : Z }.

(** [calendar.isleap] *)
Definition isleap (y : Z) : bool :=
  (y mod 4 =? 0) && (negb (y mod 100 =? 0) || (y mod 400 =? 0)).

(** [calendar.monthrange(y, m)[1]], the number of days of month [m] of [y]. *)
Definition days_in_month (y m : Z) : Z :=
  if m =? 2 then (if isleap y then 29 else 28)
  else if (m =? 4) || (m =? 6) || (m =? 9) || (m =? 11) then 30
  else 31.

(** The dates a [datetime] object can hold. *)
Definition valid_date (d : date) : bool :=
  (1 <=? month d) && (month d <=? 12) &&
  (1 <=? day d) && (day d <=? days_in_month (year d) (month d)).

(** Comparison of two dates: lexicographic on year, month, day. *)
Definition date_ltb (a b : date) : bool :=
  (year a <? year b) ||
  ((year a =? year b) &&
   ((month a <? month b) || ((month a =? month b) && (day a <? day b)))).

Definition date_leb (a b : date) : bool := negb (date_ltb b a).

Definition date_eqb (a b : date) : bool :=
  (year a =? year b) && (month a =? month b) && (day a =? day b).

(** [Timestamp.is_month_end] *)
Definition is_month_end (d : date) : bool :=
  day d =? days_in_month (year d) (month d).

(** The last calendar day of the month that contains [d]. *)
Definition month_end_of (d : date) : date :=
  mkdate (year d) (month d) (days_in_month (year d) (month d)).

(** Moving a (year, month) pair by [n] months, as pandas' [shift_month]
    computes the target year and month. *)
Definition shift_year_month (y m n : Z) : Z * Z :=
  let dy := (m + n) / 12 in
  let mo := (m + n) mod 12 in
  if mo =? 0 then (y + dy - 1, 12) else (y + dy, mo).

(** [date + pd.offsets.MonthEnd()] (n = 1): a date before the end of its
    month rolls to that month's end (the offset's [n] is first decreased to
    0), a month end moves to the end of the next month. *)
Definition MonthEnd (d : date) : date :=
  let n := if day d <? days_in_month (year d) (month d) then 0 else 1 in
  let '(y, m) := shift_year_month (year d) (month d) n in
  mkdate y m (days_in_month y m).

(** [date + datetime.timedelta(days=1)]: the next calendar day. *)
Definition next_day (d : date) : date :=
  if day d <? days_in_month (year d) (month d)
  then mkdate (year d) (month d) (day d + 1)
  else if month d <? 12
       then mkdate (year d) (month d + 1) 1
       else mkdate (year d + 1) 1 1.

(** [date + datetime.timedelta(days=n)] for a count [n] of days. *)
Fixpoint add_days (n : nat) (d : date) : date :=
  match n with
  | O => d
  | S n' => add_days n' (next_day d)
  end.

(** ** [dateutil.relativedelta] *)

(** The fields of a [relativedelta] this program sets or reads. *)
Record relativedelta := mkrd { rd_years : Z; rd_months : Z; rd_days : nat }.

(** [relativedelta._set_months]: a month count beyond 11 carries into the
    years, both keeping the sign of the count ([divmod] of the absolute
    value). *)
Definition set_months (months : Z) : relativedelta :=
  if 11 <? Z.abs months
  then mkrd (Z.sgn months * (Z.abs months / 12))
            (Z.sgn months * (Z.abs months mod 12)) 0
  else mkrd 0 months 0.

(** [relativedelta.__radd__]: [other + rd].  The years and months move the
    year and month fields, the day is clipped to the length of the target
    month, and the days are added last as a [timedelta]. *)
Definition rd_add (rd : relativedelta) (other : date) : date :=
  let y := year other + rd_years rd in
  let m := month other in
  let '(y, m) :=
    if rd_months rd =? 0 then (y, m)
    else let m := m + rd_months rd in
         if 12 <? m then (y + 1, m - 12)
         else if m <? 1 then (y - 1, m + 12)
         else (y, m) in
  let d := Z.min (days_in_month y m) (day other) in
  add_days (rd_days rd) (mkdate y m d).

(** [relativedelta(dt1, dt2)]: the calendar difference between two dates.
    The month difference of the year and month fields is corrected by one
    when it overshoots [dt1]; a single correction always suffices for dates
    of the calendar, so the library's adjustment loop is its one step.  Only
    the years and months of the result are kept: the program reads
    [.years]. *)
Definition relativedelta_between (dt1 dt2 : date) : relativedelta :=
  let months := (year dt1 - year dt2) * 12 + (month dt1 - month dt2) in
  let dtm := rd_add (set_months months) dt2 in
  if date_ltb dt1 dt2
  then (if date_ltb dtm dt1 then set_months (months + 1) else set_months months)
  else (if date_ltb dt1 dtm then set_months (months - 1) else set_months months).

(** The adjustment loop of [relativedelta(dt1, dt2)] as the library writes
    it, [while compare(dt1, dtm): months += increment], with a bound [fuel]
    on the number of tests.  [relativedelta_loop_between] below shows that
    it stops after at most one correction with the result of
    [relativedelta_between]. *)
Fixpoint adjust_months (fuel : nat) (compare : date -> bool) (increment : Z)
         (dt2 : date) (months : Z) : option Z :=
  match fuel with
  | O => None
  | S fuel' =>
      if compare (rd_add (set_months months) dt2)
      then adjust_months fuel' compare increment dt2 (months + increment)
      else Some months
  end.

Definition relativedelta_loop (fuel : nat) (dt1 dt2 : date) : option relativedelta :=
  let months := (year dt1 - year dt2) * 12 + (month dt1 - month dt2) in
  let '(compare, increment) :=
    if date_ltb dt1 dt2
    then (fun dtm => date_ltb dtm dt1, 1)
    else (fun dtm => date_ltb dt1 dtm, -1) in
  option_map set_months (adjust_months fuel compare increment dt2 months).

(** ** Amounts: [numpy] rounding over exact rationals *)

Open Scope Q_scope.

(** [np.rint]: the nearest integer, a tie going to the even neighbour. *)
Definition rint (x : Q) : Z :=
  let f := Qfloor x in
  match Qcompare (Qminus x (inject_Z f)) (1 # 2) with
  | Lt => f
  | Gt => (f + 1)%Z
  | Eq => if Z.even f then f else (f + 1)%Z
  end.

Definition pow10 (decimals : N) : positive :=
  match decimals with
  | N0 => 1%positive
  | Npos p => (10 ^ p)%positive
  end.

(** [np.round(x, decimals)] for [decimals >= 0]: scale by [10 ** decimals],
    [rint], scale back. *)
Definition np_round (x : Q) (decimals : N) : Q :=
  Qmake (rint (Qmult x (inject_Z (Zpos (pow10 decimals))))) (pow10 decimals).

Close Scope Q_scope.

(** ** Amounts: [numpy] rounding in binary64 *)

(** The integer nearest to [m / d] for [d > 0], a tie going to the even
    neighbour. *)
Definition div_half_even (m d : Z) : Z :=
  let q := m / d in
  let r := m mod d in
  match 2 * r ?= d with
  | Lt => q
  | Gt => q + 1
  | Eq => if Z.even q then q else q + 1
  end.

(** [np.rint] on a [float64]: the integer nearest to the exact value of
    [x], a tie going to the even neighbour, with the sign of [x].  A finite
    float is [m * 2 ^ e] with its sign; with [e >= 0] it is an integer
    already.  Zeros, infinities and [nan] are returned as they are. *)
Definition rint64 (x : float) : float :=
  match Prim2SF x with
  | S754_finite s m e =>
      if 0 <=? e then x
      else
        let k := div_half_even (Zpos m) (2 ^ (- e)) in
        let r := PrimFloat.of_uint63 (Uint63.of_Z k) in
        if s then PrimFloat.opp r else r
  | _ => x
  end.

(** [np.round(x, decimals)] on a [float64], [decimals >= 0]: the three
    float operations multiply by [10 ** decimals], [rint], divide by
    [10 ** decimals]. *)
Definition np_round64 (x : float) (decimals : N) : float :=
  let p := PrimFloat.of_uint63 (Uint63.of_Z (10 ^ Z.of_N decimals)) in
  PrimFloat.div (rint64 (PrimFloat.mul x p)) p.

(** ** The data of a run *)

(** One line of [_user_data]: the joined contract and pension sheets, with
    the columns renamed as [_create_user_data] renames them.  The join on
    the contract number is taken as performed; the frame is the list of its
    lines, each under its index label (the contract number).  A line has its
    amount: a contract the join leaves without amount ([NaN], see
    [_create_user_data] and [with_amount]) is not a line of this frame; the
    loop in binary64 shows what the program pays on such a line. *)
Record row := mkrow {
  sex : string;
  birthdate : date;
  pension_start : Z;
  pension_amount : Q
}.

(** The parameter dictionary, one field per key of [ParamsEnum]. *)
Record params := mkparams {
  START_DATE : date;
  PENSION_INDEXING_RATE : Q;
  MAX_AGE : Z
}.

(** A line of [_user_data] after [_preprocess_contract_data] has added the
    columns [start_date] and [end_date]. *)
Record dated_row := mkdated {
  base : row;
  start_date : date;
  end_date : date
}.

(** One record appended to [data]: the keys are the column names
    [CONTRACT_NUMBER], [DATE_OF_PAYMENT] and [PENSION_AMOUNT] of
    [PersonInfoEnum]. *)
Record entry := mkentry {
  CONTRACT_NUMBER : Z;
  DATE_OF_PAYMENT : date;
  PENSION_AMOUNT : Q
}.

(** A [pd.DataFrame] of payment records: its lines in order. *)
Definition DataFrame := list entry.

(** The exceptions the run can raise. *)
Inductive exn := ValueError | KeyError.

(** What a call does: it returns a value, raises, or is still running when
    the iteration budget of the model is spent. *)
Inductive outcome (A : Type) :=
| Returned (a : A)
| Raised (e : exn)
| Unfinished.
Arguments Returned {A} a.
Arguments Raised {A} e.
Arguments Unfinished {A}.

(** The attributes of a [PensionCalculator] object.  The frame
    [_user_data] is kept as its lines as loaded and, beside them, the columns
    [start_date] and [end_date] that [_preprocess_contract_data] writes into
    it: [None] until they are written, then one pair for each line. *)
Record PensionCalculator := mkcalc {
  _user_data : list (Z * row);
  _user_data_start_end : option (list (date * date));
  _params : params;
  _indexing_month : gmap Z Q;
  _result_df : option DataFrame
}.

(** ** The methods of [PensionCalculator] *)

(** [__init__], given the frame [_create_user_data] builds. *)
Definition init (user_data : list (Z * row)) (p : params) : PensionCalculator :=
  mkcalc user_data None p {[ 1 := PENSION_INDEXING_RATE p ]} None.

(** [dict.get(key, default)] *)
Definition dict_get (m : gmap Z Q) (key : Z) (default : Q) : Q :=
  match m !! key with
  | Some v => v
  | None => default
  end.

(** [_get_last_day_of_month] *)
Definition _get_last_day_of_month (d : date) : date :=
  if negb (is_month_end d) then MonthEnd d else d.

(** [_calculate_start_date] *)
Definition _calculate_start_date (p : params) (r : row) : date :=
  let on_pension :=
    pension_start r <=? rd_years (relativedelta_between (START_DATE p) (birthdate r)) in
  let start_date := START_DATE p in
  if negb on_pension
  then _get_last_day_of_month (rd_add (mkrd (pension_start r) 0 0) (birthdate r))
  else start_date.

(** The [end_date] column of [_preprocess_contract_data]. *)
Definition calculate_end_date (p : params) (r : row) : date :=
  rd_add (mkrd (MAX_AGE p) 0 1) (birthdate r).

(** [_preprocess_contract_data]: the lines of [_user_data] with the two
    columns the method computes, line by line, for a frame that has lines.
    The call of the method on the object, which writes the columns and which
    fails on a frame without lines, is [call_preprocess_contract_data]. *)
Definition _preprocess_contract_data (self : PensionCalculator)
  : list (Z * dated_row) :=
  List.map (fun cr : Z * row =>
              (fst cr,
               mkdated (snd cr)
                       (_calculate_start_date (_params self) (snd cr))
                       (calculate_end_date (_params self) (snd cr))))
           (_user_data self).

(** The two columns, as [_preprocess_contract_data] writes them. *)
Definition start_end_columns (self : PensionCalculator) : list (date * date) :=
  List.map (fun cr : Z * dated_row => (start_date (snd cr), end_date (snd cr)))
           (_preprocess_contract_data self).

(** The call [self._preprocess_contract_data()].  On a frame without lines
    [apply(..., axis=1)] gives back a frame, not a column, and assigning a
    frame to the one column [start_date] raises [ValueError]; nothing is
    written.  Otherwise both columns are written into [_user_data] in place
    (a second call writes the same values again). *)
Definition call_preprocess_contract_data (self : PensionCalculator)
  : exn + PensionCalculator :=
  match _user_data self with
  | nil => inl ValueError
  | _ :: _ =>
      inr (mkcalc (_user_data self) (Some (start_end_columns self))
                  (_params self) (_indexing_month self) (_result_df self))
  end.

(** The step that closes an iteration of the payment loop:
    [_get_last_day_of_month(payment_date + relativedelta(months=1))]. *)
Definition advance (payment_date : date) : date :=
  _get_last_day_of_month (rd_add (mkrd 0 1 0) payment_date).

(** The payment date reached after [n] closing steps from [start]. *)
Fixpoint nth_payment_date (n : nat) (start : date) : date :=
  match n with
  | O => start
  | S n' => nth_payment_date n' (advance start)
  end.

(** The [while payment_date <= row.end_date] loop of [calculate] for one
    contract: the records it appends to [data], in order.  [fuel] bounds the
    number of tests of the loop condition; [None] when it is spent before
    the condition fails. *)
Fixpoint payment_loop (fuel : nat) (indexing_month : gmap Z Q) (contract : Z)
         (end_date payment_date : date) (payment : Q) : option (list entry) :=
  match fuel with
  | O => None
  | S fuel' =>
      if date_leb payment_date end_date then
        let payment :=
          np_round (Qmult payment (Qplus 1 (dict_get indexing_month (month payment_date) 0))) 2 in
        match payment_loop fuel' indexing_month contract end_date
                           (advance payment_date) payment with
        | Some rest => Some (mkentry contract payment_date payment :: rest)
        | None => None
        end
      else Some nil
  end.

(** The [for contract, row in self._user_data.iterrows()] loop: the whole of
    [data]. *)
Fixpoint contracts_loop (fuel : nat) (indexing_month : gmap Z Q)
         (rows : list (Z * dated_row)) : option (list entry) :=
  match rows with
  | nil => Some nil
  | (contract, r) :: rows' =>
      match payment_loop fuel indexing_month contract (end_date r)
                         (start_date r) (pension_amount (base r)) with
      | Some es =>
          match contracts_loop fuel indexing_month rows' with
          | Some rest => Some (es ++ rest)
          | None => None
          end
      | None => None
      end
  end.

(** The sort key of [sort_values([DATE_OF_PAYMENT, CONTRACT_NUMBER])]. *)
Definition key_ltb (a b : entry) : bool :=
  date_ltb (DATE_OF_PAYMENT a) (DATE_OF_PAYMENT b) ||
  (date_eqb (DATE_OF_PAYMENT a) (DATE_OF_PAYMENT b) &&
   (CONTRACT_NUMBER a <? CONTRACT_NUMBER b)).

Definition key_leb (a b : entry) : bool := negb (key_ltb b a).

(** A stable sort by that key: a record goes in front of the first record
    whose key is not smaller, so records of equal key keep their order. *)
Fixpoint insert_sorted (x : entry) (l : list entry) : list entry :=
  match l with
  | nil => x :: nil
  | y :: l' => if key_leb x y then x :: y :: l' else y :: insert_sorted x l'
  end.

Fixpoint stable_sort (l : list entry) : list entry :=
  match l with
  | nil => nil
  | x :: l' => insert_sorted x (stable_sort l')
  end.

(** [pd.DataFrame(data).sort_values([...])]: a frame built from an empty
    list has no columns, and sorting it by a column name raises
    [KeyError]. *)
Definition sort_values (data : list entry) : exn + DataFrame :=
  match data with
  | nil => inl KeyError
  | _ => inr (stable_sort data)
  end.

(** The truth value of [self._result_df]: [None] is false; pandas refuses to
    give a [DataFrame] a truth value and raises [ValueError]. *)
Definition truth_value (df : option DataFrame) : exn + bool :=
  match df with
  | None => inr false
  | Some _ => inl ValueError
  end.

(** [calculate]: the outcome of the call and the object after it.  The
    loop over the contracts reads the lines of the frame the call of
    [_preprocess_contract_data] has just completed; an exception leaves the
    object as the statements before it left it. *)
Definition calculate (fuel : nat) (self : PensionCalculator)
  : outcome DataFrame * PensionCalculator :=
  match truth_value (_result_df self) with
  | inl e => (Raised e, self)
  | inr true =>
      match _result_df self with
      | Some df => (Returned df, self)
      | None => (Raised ValueError, self)
      end
  | inr false =>
      match call_preprocess_contract_data self with
      | inl e => (Raised e, self)
      | inr self1 =>
          match contracts_loop fuel (_indexing_month self)
                               (_preprocess_contract_data self) with
          | None => (Unfinished, self1)
          | Some data =>
              match sort_values data with
              | inl e => (Raised e, self1)
              | inr df =>
                  (Returned df,
                   mkcalc (_user_data self1) (_user_data_start_end self1)
                          (_params self1) (_indexing_month self1) (Some df))
              end
          end
      end
  end.

(** ** The payment loop in binary64 *)

(** One record appended to [data], its amount the [float64] the program
    computes. *)
Record entry64 := mkentry64 {
  CONTRACT_NUMBER64 : Z;
  DATE_OF_PAYMENT64 : date;
  PENSION_AMOUNT64 : float
}.

(** [dict.get(key, default)] on a dictionary of [float64] rates. *)
Definition dict_get64 (m : gmap Z float) (key : Z) (default : float) : float :=
  match m !! key with
  | Some v => v
  | None => default
  end.

(** The dictionary [__init__] builds: [{1: rate}]. *)
Definition indexing_month64 (rate : float) : gmap Z float := {[ 1 := rate ]}.

(** The [while] loop of [calculate] for one contract with the amounts in
    binary64: the same tests and the same dates as [payment_loop], the
    amount indexed and rounded by float operations.  The default [0] of
    [.get] and the literal [1] enter the float operations as [0.0] and
    [1.0]. *)
Fixpoint payment_loop64 (fuel : nat) (indexing_month : gmap Z float)
         (contract : Z) (end_date payment_date : date) (payment : float)
  : option (list entry64) :=
  match fuel with
  | O => None
  | S fuel' =>
      if date_leb payment_date end_date then
        let payment :=
          np_round64
            (PrimFloat.mul payment
               (PrimFloat.add 1 (dict_get64 indexing_month (month payment_date) 0)))
            2 in
        match payment_loop64 fuel' indexing_month contract end_date
                             (advance payment_date) payment with
        | Some rest => Some (mkentry64 contract payment_date payment :: rest)
        | None => None
        end
      else Some nil
  end.

(** ** The sheets and their join *)

(** One line of the contract sheet, under the names [_create_user_data]
    gives its columns. *)
Record contract_line := mkline {
  line_sex : string;
  line_birthdate : date;
  line_pension_start : Z
}.

(** One line of the joined frame.  A contract without a line in the pension
    sheet has no amount ([NaN] in the frame): [None]. *)
Record joined_line := mkjoined {
  joined_contract : contract_line;
  joined_amount : option Q
}.

(** The lines of the pension sheet under the index label [contract], in the
    order of the sheet. *)
Definition pension_lines (pension_data : list (Z * Q)) (contract : Z) : list Q :=
  List.map snd (List.filter (fun ca : Z * Q => fst ca =? contract) pension_data).

(** [_create_user_data]: [contract_data.join(pension_data)], a left join on
    the index.  Every line of the contract sheet is kept, in order, once for
    each line of the pension sheet under its label, and once without amount
    when there is none.  The renaming of the columns changes no value. *)
Definition _create_user_data (contract_data : list (Z * contract_line))
           (pension_data : list (Z * Q)) : list (Z * joined_line) :=
  List.flat_map
    (fun cl : Z * contract_line =>
       match pension_lines pension_data (fst cl) with
       | nil => (fst cl, mkjoined (snd cl) None) :: nil
       | amounts =>
           List.map (fun a => (fst cl, mkjoined (snd cl) (Some a))) amounts
       end)
    contract_data.

(** The frame as the calculator reads it when every line has its amount. *)
Definition with_amount (cl : Z * joined_line) : option (Z * row) :=
  match joined_amount (snd cl) with
  | Some a =>
      Some (fst cl,
            mkrow (line_sex (joined_contract (snd cl)))
                  (line_birthdate (joined_contract (snd cl)))
                  (line_pension_start (joined_contract (snd cl))) a)
  | None => None
  end.

(** ** Export *)

(** [export_to_df]: [self.calculate().to_excel(name, index=False)].  The
    files are a dictionary from file names to the lines they hold.  What
    [to_excel] does with a frame, a name and the files (which lines it
    stores, whether it raises: an unknown extension, a path that cannot be
    written) is the writer's and is a parameter: it gives the files after
    the call and the exception it raised, if any.  An exception of
    [calculate] leaves before [to_excel] is reached.  The default of [name]
    is a file name like any other. *)
Definition export_to_df
           (to_excel : DataFrame -> string -> gmap string DataFrame ->
                       option exn * gmap string DataFrame)
           (fuel : nat) (self : PensionCalculator) (name : string)
           (files : gmap string DataFrame)
  : outcome unit * PensionCalculator * gmap string DataFrame :=
  match calculate fuel self with
  | (Returned df, self') =>
      match to_excel df name files with
      | (None, files') => (Returned tt, self', files')
      | (Some e, files') => (Raised e, self', files')
      end
  | (Raised e, self') => (Raised e, self', files)
  | (Unfinished, self') => (Unfinished, self', files)
  end.

(** ** The number of payments *)

(** The number of payment dates from [start] up to [end_date]: none when
    [start] is after [end_date]; the start date alone when both lie in one
    month; otherwise the start date, one date for each month in between,
    and the end of the month of [end_date] when [end_date] is that day. *)
Definition payments_due (start end_date : date) : Z :=
  if date_ltb end_date start then 0
  else
    let months := 12 * year end_date + month end_date
                  - (12 * year start + month start) in
    if months =? 0 then 1
    else months + (if is_month_end end_date then 1 else 0).

(** ** A worked example

    Two contracts already on pension at the report date 2024-01-01, with a
    maximum age of 64 years and a January indexing rate of 5%. *)

Definition example_params : params := mkparams (mkdate 2024 1 1) (5 # 100) 64.

Definition example_row : row := mkrow "M" (mkdate 1960 5 15) 60 1000.

Definition example_user_data : list (Z * row) :=
  [(7, example_row); (3, mkrow "F" (mkdate 1960 4 10) 60 (250075 # 100))].

Definition example_calculator : PensionCalculator :=
  init example_user_data example_params.

(** The payments of contract 7 in the order the loop records them. *)
Definition example_schedule : list entry :=
  [mkentry 7 (mkdate 2024 1 1) (105000 # 100);
   mkentry 7 (mkdate 2024 2 29) (105000 # 100);
   mkentry 7 (mkdate 2024 3 31) (105000 # 100);
   mkentry 7 (mkdate 2024 4 30) (105000 # 100)].

(** The frame [calculate] returns for the two contracts. *)
Definition example_ledger : DataFrame :=
  [mkentry 3 (mkdate 2024 1 1) (262579 # 100);
   mkentry 7 (mkdate 2024 1 1) (105000 # 100);
   mkentry 3 (mkdate 2024 2 29) (262579 # 100);
   mkentry 7 (mkdate 2024 2 29) (105000 # 100);
   mkentry 3 (mkdate 2024 3 31) (262579 # 100);
   mkentry 7 (mkdate 2024 3 31) (105000 # 100);
   mkentry 7 (mkdate 2024 4 30) (105000 # 100)].

(** The object of the example after [calculate] has returned: the two
    columns written, the frame cached. *)
Definition example_calculator_done : PensionCalculator :=
  mkcalc example_user_data
         (Some [(mkdate 2024 1 1, mkdate 2024 5 16);
                (mkdate 2024 1 1, mkdate 2024 4 11)])
         example_params (_indexing_month example_calculator)
         (Some example_ledger).

(** A writer that stores the lines under the name and never raises. *)
Definition example_writer (df : DataFrame) (name : string)
           (files : gmap string DataFrame)
  : option exn * gmap string DataFrame :=
  (None, <[name := df]> files).

(** The payments the program computes for an amount of 3994.50 from
    2024-01-01 to 2024-05-16 at a January rate of 5%: the product
    3994.50 * 1.05 is 4194.2250000000004 in binary64 and rounds to
    4194.23. *)
Definition example_schedule64 : list entry64 :=
  [mkentry64 7 (mkdate 2024 1 1) 4194.23;
   mkentry64 7 (mkdate 2024 2 29) 4194.23;
   mkentry64 7 (mkdate 2024 3 31) 4194.23;
   mkentry64 7 (mkdate 2024 4 30) 4194.23].

(** The two sheets the frame of the example is joined from. *)
Definition example_contract_sheet : list (Z * contract_line) :=
  [(7, mkline "M" (mkdate 1960 5 15) 60); (3, mkline "F" (mkdate 1960 4 10) 60)].

Definition example_pension_sheet : list (Z * Q) :=
  [(3, (250075 # 100)%Q); (7, 1000%Q)].

(** * Properties *)

(** ** Boolean tests as propositions *)

Ltac btop :=
  repeat
    (rewrite ?andb_true_iff, ?orb_true_iff, ?negb_true_iff,
             ?andb_false_iff, ?orb_false_iff, ?negb_false_iff,
             ?Z.ltb_lt, ?Z.leb_le, ?Z.eqb_eq,
             ?Z.ltb_ge, ?Z.leb_gt, ?Z.eqb_neq in *).

Lemma date_ltb_lt (a b : date) :
  date_ltb a b = true <->
  (year a < year b \/
   (year a = year b /\
    (month a < month b \/ (month a = month b /\ day a < day b)))).
Proof. unfold date_ltb. btop. tauto. Qed.

Lemma date_ltb_ge (a b : date) :
  date_ltb a b = false <->
  (year b < year a \/
   (year b = year a /\
    (month b < month a \/ (month b = month a /\ day b <= day a)))).
Proof. unfold date_ltb. btop. lia. Qed.

Lemma date_leb_le (a b : date) :
  date_leb a b = true <->
  (year a < year b \/
   (year a = year b /\
    (month a < month b \/ (month a = month b /\ day a <= day b)))).
Proof. unfold date_leb. rewrite negb_true_iff. apply date_ltb_ge. Qed.

Lemma date_leb_gt (a b : date) :
  date_leb a b = false <-> date_ltb b a = true.
Proof. unfold date_leb. apply negb_false_iff. Qed.

Lemma date_eqb_eq (a b : date) : date_eqb a b = true <-> a = b.
Proof.
  unfold date_eqb. destruct a, b; simpl. btop.
  split; [intros [[-> ->] ->]; reflexivity | intros [= -> -> ->]; lia].
Qed.

Lemma days_in_month_bounds (y m : Z) : 28 <= days_in_month y m <= 31.
Proof.
  unfold days_in_month.
  destruct (m =? 2); [destruct (isleap y); lia|].
  destruct ((m =? 4) || (m =? 6) || (m =? 9) || (m =? 11)); lia.
Qed.

Lemma valid_date_spec (d : date) :
  valid_date d = true <->
  1 <= month d <= 12 /\ 1 <= day d <= days_in_month (year d) (month d).
Proof. unfold valid_date. btop. lia. Qed.

(** ** The indexing dictionary *)

Lemma dict_get_singleton (k : Z) (v : Q) (key : Z) (default : Q) :
  dict_get {[ k := v ]} key default = if key =? k then v else default.
Proof.
  unfold dict_get. destruct (Z.eqb_spec key k) as [->|Hne].
  - now rewrite lookup_singleton_eq.
  - rewrite lookup_singleton_ne; [reflexivity | congruence].
Qed.

(** C7: the dictionary built by [__init__] gives the configured rate for
    month 1 and the default 0 for every other month; looking up a month
    that has no entry is not an error. *)
Theorem indexing_rate_january_only (user_data : list (Z * row)) (p : params) (m : Z) :
  dict_get (_indexing_month (init user_data p)) m 0
  = if m =? 1 then PENSION_INDEXING_RATE p else 0%Q.
Proof. unfold init; simpl. apply dict_get_singleton. Qed.

(** ** Date arithmetic *)

Lemma rd_add_years (n : Z) (d : date) :
  rd_add (mkrd n 0 0) d
  = mkdate (year d + n) (month d)
           (Z.min (days_in_month (year d + n) (month d)) (day d)).
Proof. reflexivity. Qed.

Lemma rd_add_years_one_day (n : Z) (d : date) :
  rd_add (mkrd n 0 1) d
  = next_day (mkdate (year d + n) (month d)
                     (Z.min (days_in_month (year d + n) (month d)) (day d))).
Proof. reflexivity. Qed.

Lemma rd_add_one_month (d : date) :
  1 <= month d <= 12 ->
  rd_add (mkrd 0 1 0) d
  = if month d <? 12
    then mkdate (year d) (month d + 1)
                (Z.min (days_in_month (year d) (month d + 1)) (day d))
    else mkdate (year d + 1) 1 (Z.min 31 (day d)).
Proof.
  intros Hm. unfold rd_add; simpl.
  destruct (Z.ltb_spec (month d) 12) as [Hlt|Hge].
  - destruct (Z.ltb_spec 12 (month d + 1)); [lia|].
    destruct (Z.ltb_spec (month d + 1) 1); [lia|].
    simpl. now rewrite Z.add_0_r.
  - destruct (Z.ltb_spec 12 (month d + 1)); [|lia].
    simpl. replace (month d + 1 - 12) with 1 by lia.
    rewrite Z.add_0_r. reflexivity.
Qed.

Lemma shift_year_month_0 (y m : Z) :
  1 <= m <= 12 -> shift_year_month y m 0 = (y, m).
Proof.
  intros Hm. unfold shift_year_month. rewrite Z.add_0_r.
  destruct (Z.eqb_spec (m mod 12) 0) as [H0|Hn0].
  - assert (m = 12) by (Z.div_mod_to_equations; lia). subst m.
    f_equal. change (12 / 12) with 1. lia.
  - assert (m / 12 = 0 /\ m mod 12 = m) as [-> ->]
      by (Z.div_mod_to_equations; lia).
    f_equal. lia.
Qed.

(** Month-end normalisation keeps the year and the month of a date whose
    day does not exceed the length of its month, and sets the day to that
    length. *)
Lemma get_last_day_of_month_spec (d : date) :
  1 <= month d <= 12 ->
  day d <= days_in_month (year d) (month d) ->
  _get_last_day_of_month d = month_end_of d.
Proof.
  intros Hm Hd. unfold _get_last_day_of_month, is_month_end, month_end_of.
  destruct (Z.eqb_spec (day d) (days_in_month (year d) (month d))) as [He|Hne]; simpl.
  - destruct d; simpl in *. now rewrite He.
  - unfold MonthEnd.
    destruct (Z.ltb_spec (day d) (days_in_month (year d) (month d))); [|lia].
    now rewrite shift_year_month_0.
Qed.

Lemma advance_spec (d : date) :
  1 <= month d <= 12 ->
  advance d
  = if month d <? 12
    then mkdate (year d) (month d + 1) (days_in_month (year d) (month d + 1))
    else mkdate (year d + 1) 1 31.
Proof.
  intros Hm. unfold advance. rewrite rd_add_one_month by assumption.
  destruct (Z.ltb_spec (month d) 12).
  - rewrite get_last_day_of_month_spec; simpl; [reflexivity | lia | lia].
  - rewrite get_last_day_of_month_spec; simpl; [reflexivity | lia |].
    change (days_in_month (year d + 1) 1) with 31. lia.
Qed.

Lemma month_end_of_is_month_end (d : date) :
  is_month_end (month_end_of d) = true.
Proof. unfold is_month_end, month_end_of; simpl. apply Z.eqb_refl. Qed.

Lemma month_end_of_valid (d : date) :
  1 <= month d <= 12 -> valid_date (month_end_of d) = true.
Proof.
  intros Hm. apply valid_date_spec; simpl.
  pose proof (days_in_month_bounds (year d) (month d)). lia.
Qed.

Lemma advance_is_month_end (d : date) :
  1 <= month d <= 12 -> is_month_end (advance d) = true.
Proof.
  intros Hm. rewrite advance_spec by assumption.
  destruct (month d <? 12); unfold is_month_end; simpl;
    [apply Z.eqb_refl | reflexivity].
Qed.

Lemma advance_valid (d : date) :
  1 <= month d <= 12 -> valid_date (advance d) = true.
Proof.
  intros Hm. rewrite advance_spec by assumption.
  destruct (Z.ltb_spec (month d) 12); apply valid_date_spec; simpl.
  - pose proof (days_in_month_bounds (year d) (month d + 1)). lia.
  - change (days_in_month (year d + 1) 1) with 31. lia.
Qed.

Lemma advance_increases (d : date) :
  1 <= month d <= 12 -> date_ltb d (advance d) = true.
Proof.
  intros Hm. rewrite advance_spec by assumption. apply date_ltb_lt.
  destruct (Z.ltb_spec (month d) 12); simpl; lia.
Qed.

Lemma next_day_valid (d : date) :
  valid_date d = true -> valid_date (next_day d) = true.
Proof.
  rewrite !valid_date_spec. intros [Hm Hd]. unfold next_day.
  destruct (Z.ltb_spec (day d) (days_in_month (year d) (month d))); simpl.
  - lia.
  - destruct (Z.ltb_spec (month d) 12); simpl.
    + pose proof (days_in_month_bounds (year d) (month d + 1)). lia.
    + change (days_in_month (year d + 1) 1) with 31. lia.
Qed.

Lemma rd_add_years_valid (n : Z) (d : date) :
  valid_date d = true -> valid_date (rd_add (mkrd n 0 0) d) = true.
Proof.
  rewrite rd_add_years, !valid_date_spec; simpl. intros [Hm Hd].
  pose proof (days_in_month_bounds (year d + n) (month d)). lia.
Qed.

(** ** Whole elapsed years *)

Ltac same_year_month :=
  match goal with
  | |- mkdate ?Y ?M _ = mkdate ?y ?m _ =>
      let HY := fresh in
      let HM := fresh in
      assert (HY : Y = y) by (Z.div_mod_to_equations; lia);
      assert (HM : M = m) by (Z.div_mod_to_equations; lia);
      rewrite HY, HM; reflexivity
  end.

(** Adding a month count, normalised by [set_months], lands in the month
    that lies that many months away, the day clipped to its length. *)
Lemma rd_add_set_months (d : date) (k y m : Z) :
  1 <= month d <= 12 -> 1 <= m <= 12 ->
  k = (y - year d) * 12 + (m - month d) ->
  rd_add (set_months k) d = mkdate y m (Z.min (days_in_month y m) (day d)).
Proof.
  intros Hd Hm Hk. unfold rd_add, set_months.
  destruct (Z.ltb_spec 11 (Z.abs k)) as [Hbig|Hsmall]; simpl.
  - destruct (Z.lt_trichotomy k 0) as [Hneg|[Hz|Hpos]].
    + rewrite (Z.sgn_neg k Hneg), (Z.abs_neq k) by lia.
      destruct (Z.eqb_spec (-1 * (- k mod 12)) 0); simpl.
      * same_year_month.
      * destruct (Z.ltb_spec 12 (month d + -1 * (- k mod 12))); simpl;
          [exfalso; Z.div_mod_to_equations; lia|].
        destruct (Z.ltb_spec (month d + -1 * (- k mod 12)) 1); simpl;
          same_year_month.
    + lia.
    + rewrite (Z.sgn_pos k Hpos), (Z.abs_eq k) by lia.
      destruct (Z.eqb_spec (1 * (k mod 12)) 0); simpl.
      * same_year_month.
      * destruct (Z.ltb_spec 12 (month d + 1 * (k mod 12))); simpl;
          [same_year_month|].
        destruct (Z.ltb_spec (month d + 1 * (k mod 12)) 1); simpl;
          [exfalso; Z.div_mod_to_equations; lia|same_year_month].
  - destruct (Z.eqb_spec k 0); simpl.
    + same_year_month.
    + destruct (Z.ltb_spec 12 (month d + k)); simpl; [same_year_month|].
      destruct (Z.ltb_spec (month d + k) 1); simpl; same_year_month.
Qed.

Lemma rd_years_set_months_nonneg (k : Z) :
  0 <= k -> rd_years (set_months k) = k / 12.
Proof.
  intros Hk. unfold set_months.
  destruct (Z.ltb_spec 11 (Z.abs k)); simpl.
  - rewrite Z.abs_eq, Z.sgn_pos by lia. lia.
  - symmetry. apply Z.div_small. lia.
Qed.

Lemma rd_years_set_months_nonpos (k : Z) :
  k <= 0 -> rd_years (set_months k) <= 0.
Proof.
  intros Hk. unfold set_months.
  destruct (Z.ltb_spec 11 (Z.abs k)); simpl; [|lia].
  rewrite Z.abs_neq, Z.sgn_neg by lia.
  assert (0 <= - k / 12) by (apply Z.div_pos; lia). lia.
Qed.

(** The whole years elapsed from [dt2] to [dt1] reach [n] exactly when the
    [n]-th anniversary of [dt2] (29 February falling on 28 February in a
    common year) is not after [dt1]. *)
Lemma elapsed_years_reach_iff (dt1 dt2 : date) (n : Z) :
  valid_date dt1 = true -> valid_date dt2 = true ->
  0 < n \/ date_leb dt2 dt1 = true ->
  n <= rd_years (relativedelta_between dt1 dt2) <->
  date_leb (rd_add (mkrd n 0 0) dt2) dt1 = true.
Proof.
  intros H1 H2 Hn.
  apply valid_date_spec in H1 as [Hm1 Hd1].
  apply valid_date_spec in H2 as [Hm2 Hd2].
  unfold relativedelta_between.
  rewrite (rd_add_set_months dt2 _ (year dt1) (month dt1)) by (auto; lia).
  rewrite rd_add_years, date_leb_le.
  unfold date_leb in Hn. rewrite negb_true_iff in Hn.
  destruct dt1 as [y1 m1 d1], dt2 as [y2 m2 d2]; simpl in *.
  pose proof (days_in_month_bounds y1 m1) as B1.
  pose proof (days_in_month_bounds (y2 + n) m2) as B2.
  assert (E1 : y1 = y2 -> m1 = m2 -> days_in_month y1 m1 = days_in_month y2 m2)
    by (intros; subst; reflexivity).
  assert (E2 : y2 + n = y1 -> m2 = m1 ->
               days_in_month (y2 + n) m2 = days_in_month y1 m1)
    by (intros; subst; reflexivity).
  remember (days_in_month y1 m1) as D1.
  remember (days_in_month y2 m2) as D2.
  remember (days_in_month (y2 + n) m2) as D3.
  clear HeqD1 HeqD2 HeqD3.
  destruct (date_ltb (mkdate y1 m1 d1) (mkdate y2 m2 d2)) eqn:Hlt.
  - apply date_ltb_lt in Hlt; simpl in Hlt.
    assert (0 < n) by (destruct Hn; [assumption|discriminate]).
    match goal with
    | |- context [if ?c then _ else _] => destruct c eqn:Hc
    end.
    + apply date_ltb_lt in Hc; simpl in Hc.
      pose proof (rd_years_set_months_nonpos ((y1 - y2) * 12 + (m1 - m2) + 1)
                    ltac:(lia)).
      lia.
    + pose proof (rd_years_set_months_nonpos ((y1 - y2) * 12 + (m1 - m2))
                    ltac:(lia)).
      lia.
  - apply date_ltb_ge in Hlt; simpl in Hlt.
    match goal with
    | |- context [if ?c then _ else _] => destruct c eqn:Hc
    end.
    + apply date_ltb_lt in Hc; simpl in Hc.
      rewrite rd_years_set_months_nonneg by lia.
      Z.div_mod_to_equations. lia.
    + apply date_ltb_ge in Hc; simpl in Hc.
      rewrite rd_years_set_months_nonneg by lia.
      Z.div_mod_to_equations. lia.
Qed.

(** The library's adjustment loop stops within two tests of its condition,
    with the difference [relativedelta_between] computes. *)
Lemma relativedelta_loop_between (fuel : nat) (dt1 dt2 : date) :
  valid_date dt1 = true -> valid_date dt2 = true ->
  relativedelta_loop (S (S fuel)) dt1 dt2 = Some (relativedelta_between dt1 dt2).
Proof.
  intros H1 H2.
  apply valid_date_spec in H1 as [Hm1 Hd1].
  apply valid_date_spec in H2 as [Hm2 Hd2].
  unfold relativedelta_loop, relativedelta_between.
  set (k := (year dt1 - year dt2) * 12 + (month dt1 - month dt2)).
  destruct (date_ltb dt1 dt2) eqn:Hlt; cbn [adjust_months].
  - destruct (date_ltb (rd_add (set_months k) dt2) dt1) eqn:Hc; [|reflexivity].
    set (y' := if month dt1 <? 12 then year dt1 else year dt1 + 1).
    set (m' := if month dt1 <? 12 then month dt1 + 1 else 1).
    assert (Hm' : 1 <= m' <= 12)
      by (unfold m'; destruct (Z.ltb_spec (month dt1) 12); lia).
    rewrite (rd_add_set_months dt2 (k + 1) y' m')
      by (auto; unfold k, y', m'; destruct (Z.ltb_spec (month dt1) 12); lia).
    replace (date_ltb _ dt1) with false; [reflexivity|].
    symmetry. apply date_ltb_ge; simpl.
    unfold y', m'. destruct (Z.ltb_spec (month dt1) 12); lia.
  - destruct (date_ltb dt1 (rd_add (set_months k) dt2)) eqn:Hc; [|reflexivity].
    set (y' := if 1 <? month dt1 then year dt1 else year dt1 - 1).
    set (m' := if 1 <? month dt1 then month dt1 - 1 else 12).
    assert (Hm' : 1 <= m' <= 12)
      by (unfold m'; destruct (Z.ltb_spec 1 (month dt1)); lia).
    rewrite (rd_add_set_months dt2 (k + -1) y' m')
      by (auto; unfold k, y', m'; destruct (Z.ltb_spec 1 (month dt1)); lia).
    replace (date_ltb dt1 _) with false; [reflexivity|].
    symmetry. apply date_ltb_ge; simpl.
    unfold y', m'. destruct (Z.ltb_spec 1 (month dt1)); lia.
Qed.

(** ** Date resolution *)

(** Looking up a line of a frame built line by line. *)
Lemma lookup_map {A B : Type} (f : A -> B) (l : list A) (i : nat) :
  List.map f l !! i = option_map f (l !! i).
Proof.
  revert i. induction l as [|x l IH]; intros [|i]; simpl; auto.
Qed.

(** C6: the [end_date] column of every line is the birthdate moved by
    [MAX_AGE] years (the day clipped to the length of the target month, as
    [relativedelta] adds years) plus one day, and nothing else is done to
    it. *)
Theorem end_date_is_max_age_anniversary_plus_one_day
    (self : PensionCalculator) (i : nat) (contract : Z) (r : dated_row) :
  _preprocess_contract_data self !! i = Some (contract, r) ->
  let b := birthdate (base r) in
  let y := year b + MAX_AGE (_params self) in
  _user_data self !! i = Some (contract, base r) /\
  end_date r = next_day (mkdate y (month b) (Z.min (days_in_month y (month b)) (day b))).
Proof.
  unfold _preprocess_contract_data. rewrite lookup_map.
  destruct (_user_data self !! i) as [[c r0]|]; simpl; [|discriminate].
  intros [= <- <-]; simpl. split; reflexivity.
Qed.

Lemma end_date_is_max_age_anniversary_plus_one_day_witness :
  let self := init [(7, mkrow "M" (mkdate 1960 5 15) 60 1000)]
                   (mkparams (mkdate 2024 1 1) (5 # 100) 80) in
  let r := mkdated (mkrow "M" (mkdate 1960 5 15) 60 1000)
                   (mkdate 2024 1 1) (mkdate 2040 5 16) in
  _user_data self !! 0%nat = Some (7, base r) /\
  end_date r = next_day (mkdate 2040 5 (Z.min (days_in_month 2040 5) 15)).
Proof.
  intros self r.
  apply (end_date_is_max_age_anniversary_plus_one_day self 0 7 r).
  reflexivity.
Defined.

(** The end date of a contract is not moved to a month end. *)
Example end_date_unnormalised :
  calculate_end_date (mkparams (mkdate 2024 1 1) (5 # 100) 80)
                     (mkrow "M" (mkdate 1960 5 15) 60 1000)
  = mkdate 2040 5 16.
Proof. reflexivity. Qed.

(** C1, as stated, fails: for a contract already past its pension age the
    start date is the report date as it is, here 2024-01-01, not the end of
    January. *)
Lemma start_date_not_month_end_normalised :
  let p := mkparams (mkdate 2024 1 1) (5 # 100) 80 in
  let r := mkrow "M" (mkdate 1960 5 15) 60 1000 in
  pension_start r <= rd_years (relativedelta_between (START_DATE p) (birthdate r)) /\
  _calculate_start_date p r = mkdate 2024 1 1 /\
  _calculate_start_date p r <> month_end_of (START_DATE p).
Proof.
  intros p r. split; [|split].
  - vm_compute. discriminate.
  - reflexivity.
  - vm_compute. discriminate.
Qed.

(** C1, amended: when the whole years elapsed from the birthdate to the
    report date reach the pension age, the start date is the report date
    itself, unchanged; otherwise it is the last day of the month that
    contains the birthdate moved by [pension_start] years. *)
Theorem start_date_resolution (p : params) (r : row) :
  valid_date (birthdate r) = true ->
  let b := birthdate r in
  let elapsed := rd_years (relativedelta_between (START_DATE p) b) in
  let y := year b + pension_start r in
  (pension_start r <= elapsed -> _calculate_start_date p r = START_DATE p) /\
  (elapsed < pension_start r ->
   _calculate_start_date p r = mkdate y (month b) (days_in_month y (month b)) /\
   is_month_end (_calculate_start_date p r) = true).
Proof.
  intros Hv b elapsed y. apply valid_date_spec in Hv as [Hm Hd].
  unfold _calculate_start_date. fold b. fold elapsed. split; intros H.
  - destruct (Z.leb_spec (pension_start r) elapsed); [reflexivity | lia].
  - destruct (Z.leb_spec (pension_start r) elapsed); [lia|]. simpl.
    rewrite rd_add_years. rewrite get_last_day_of_month_spec; simpl; [|exact Hm|lia].
    split; [reflexivity|]. apply month_end_of_is_month_end.
Qed.

Lemma start_date_resolution_witness :
  let p := mkparams (mkdate 2024 1 1) (5 # 100) 80 in
  let r := mkrow "F" (mkdate 1970 2 14) 55 (250075 # 100) in
  (pension_start r <=
     rd_years (relativedelta_between (START_DATE p) (birthdate r)) ->
   _calculate_start_date p r = START_DATE p) /\
  (rd_years (relativedelta_between (START_DATE p) (birthdate r)) < pension_start r ->
   _calculate_start_date p r = mkdate 2025 2 (days_in_month 2025 2) /\
   is_month_end (_calculate_start_date p r) = true).
Proof.
  intros p r. apply (start_date_resolution p r). reflexivity.
Defined.


(** ** The payment loop of one contract *)

Section PaymentLoop.

Variable indexing_month : gmap Z Q.
Variable contract : Z.
Variable end_date : date.

(** One turn of the loop, read off its result. *)
Lemma payment_loop_inv (fuel : nat) (payment_date : date) (payment : Q)
      (es : list entry) :
  payment_loop fuel indexing_month contract end_date payment_date payment = Some es ->
  match es with
  | nil => date_leb payment_date end_date = false
  | x :: rest =>
      date_leb payment_date end_date = true /\
      x = mkentry contract payment_date
            (np_round (Qmult payment
               (Qplus 1 (dict_get indexing_month (month payment_date) 0))) 2) /\
      payment_loop (pred fuel) indexing_month contract end_date
                   (advance payment_date) (PENSION_AMOUNT x) = Some rest
  end.
Proof.
  destruct fuel as [|fuel]; simpl; [discriminate|].
  destruct (date_leb payment_date end_date).
  - destruct (payment_loop fuel _ _ _ _ _) as [rest|] eqn:Hrest; [|discriminate].
    intros [= <-]. simpl. auto.
  - intros [= <-]. reflexivity.
Qed.

(** More fuel does not change a result already reached. *)
Lemma payment_loop_fuel_mono (fuel fuel' : nat) (payment_date : date)
      (payment : Q) (es : list entry) :
  (fuel <= fuel')%nat ->
  payment_loop fuel indexing_month contract end_date payment_date payment = Some es ->
  payment_loop fuel' indexing_month contract end_date payment_date payment = Some es.
Proof.
  revert fuel' payment_date payment es.
  induction fuel as [|fuel IH]; intros fuel' d a es Hle; simpl; [discriminate|].
  destruct fuel' as [|fuel']; [lia|]. simpl.
  destruct (date_leb d end_date); [|auto].
  destruct (payment_loop fuel _ _ _ _ _) as [rest|] eqn:Hrest; [|discriminate].
  rewrite (IH fuel' _ _ rest); [auto | lia | exact Hrest].
Qed.

(** The [i]-th record carries the contract number and the date reached
    after [i] closing steps. *)
Lemma payment_loop_lookup (fuel : nat) (payment_date : date) (payment : Q)
      (es : list entry) (i : nat) (x : entry) :
  payment_loop fuel indexing_month contract end_date payment_date payment = Some es ->
  es !! i = Some x ->
  CONTRACT_NUMBER x = contract /\
  DATE_OF_PAYMENT x = nth_payment_date i payment_date /\
  date_leb (DATE_OF_PAYMENT x) end_date = true.
Proof.
  revert fuel payment_date payment es.
  induction i as [|i IH]; intros fuel d a es Hloop Hx;
    apply payment_loop_inv in Hloop; destruct es as [|y rest]; try discriminate;
    destruct Hloop as (Hle & Hy & Hrest).
  - simpl in Hx. injection Hx as <-. subst y. simpl. auto.
  - simpl in Hx. simpl. eapply IH; eauto.
Qed.

(** The loop stops at the first date after [end_date]. *)
Lemma payment_loop_stops (fuel : nat) (payment_date : date) (payment : Q)
      (es : list entry) :
  payment_loop fuel indexing_month contract end_date payment_date payment = Some es ->
  date_ltb end_date (nth_payment_date (length es) payment_date) = true.
Proof.
  revert fuel payment_date payment.
  induction es as [|y rest IH]; intros fuel d a Hloop;
    apply payment_loop_inv in Hloop.
  - simpl. now apply date_leb_gt.
  - destruct Hloop as (_ & _ & Hrest). simpl. eapply IH; eauto.
Qed.

(** The first record. *)
Lemma payment_loop_first (fuel : nat) (payment_date : date) (payment : Q)
      (es : list entry) (x : entry) :
  payment_loop fuel indexing_month contract end_date payment_date payment = Some es ->
  es !! 0%nat = Some x ->
  x = mkentry contract payment_date
        (np_round (Qmult payment
           (Qplus 1 (dict_get indexing_month (month payment_date) 0))) 2).
Proof.
  intros Hloop Hx. apply payment_loop_inv in Hloop.
  destruct es as [|y rest]; [discriminate|].
  destruct Hloop as (_ & Hy & _). simpl in Hx. congruence.
Qed.

(** Two records in a row: the later one is dated one closing step after the
    earlier one and its amount starts from the earlier amount. *)
Lemma payment_loop_consecutive (fuel : nat) (payment_date : date) (payment : Q)
      (es : list entry) (i : nat) (x x' : entry) :
  payment_loop fuel indexing_month contract end_date payment_date payment = Some es ->
  es !! i = Some x -> es !! S i = Some x' ->
  DATE_OF_PAYMENT x' = advance (DATE_OF_PAYMENT x) /\
  PENSION_AMOUNT x'
  = np_round (Qmult (PENSION_AMOUNT x)
      (Qplus 1 (dict_get indexing_month (month (DATE_OF_PAYMENT x')) 0))) 2.
Proof.
  revert fuel payment_date payment es.
  induction i as [|i IH]; intros fuel d a es Hloop Hx Hx';
    apply payment_loop_inv in Hloop; destruct es as [|y rest]; try discriminate;
    destruct Hloop as (_ & Hy & Hrest).
  - simpl in Hx, Hx'. injection Hx as <-.
    rewrite (payment_loop_first _ _ _ _ _ Hrest Hx'). subst y. simpl. auto.
  - simpl in Hx, Hx'. eapply IH; eauto.
Qed.

(** C5: every recorded payment date is on or before [end_date]; the
    records are the dates reached step by step from the start date, as long
    as the test at the top of the loop holds, and the first date that fails
    it is not recorded; a start date after [end_date] yields no record. *)
Theorem payment_dates_within_end_date (fuel : nat) (payment_date : date)
        (payment : Q) (es : list entry) :
  payment_loop fuel indexing_month contract end_date payment_date payment = Some es ->
  Forall (fun x => date_leb (DATE_OF_PAYMENT x) end_date = true) es /\
  (forall i x, es !! i = Some x ->
     DATE_OF_PAYMENT x = nth_payment_date i payment_date) /\
  date_leb (nth_payment_date (length es) payment_date) end_date = false /\
  (date_ltb end_date payment_date = true -> es = nil).
Proof.
  intros Hloop. repeat split.
  - apply Forall_lookup. intros i x Hx.
    now destruct (payment_loop_lookup _ _ _ _ _ _ Hloop Hx) as (_ & _ & H).
  - intros i x Hx.
    now destruct (payment_loop_lookup _ _ _ _ _ _ Hloop Hx) as (_ & H & _).
  - apply date_leb_gt. eapply payment_loop_stops; eauto.
  - intros Hgt. apply payment_loop_inv in Hloop.
    destruct es as [|y rest]; [reflexivity|].
    destruct Hloop as (Hle & _). apply date_leb_gt in Hgt. congruence.
Qed.

End PaymentLoop.

(** ** The payment loop in binary64 *)

Section PaymentLoop64.

Variable indexing_month : gmap Z float.
Variable contract : Z.
Variable end_date : date.

(** Rounding to two decimals is: multiply by 100, [rint], divide by 100. *)
Lemma np_round64_two (x : float) :
  np_round64 x 2 = PrimFloat.div (rint64 (PrimFloat.mul x 100)) 100.
Proof. reflexivity. Qed.

(** One turn of the loop, read off its result. *)
Lemma payment_loop64_inv (fuel : nat) (payment_date : date) (payment : float)
      (es : list entry64) :
  payment_loop64 fuel indexing_month contract end_date payment_date payment
  = Some es ->
  match es with
  | nil => date_leb payment_date end_date = false
  | x :: rest =>
      date_leb payment_date end_date = true /\
      x = mkentry64 contract payment_date
            (np_round64
               (PrimFloat.mul payment
                  (PrimFloat.add 1 (dict_get64 indexing_month (month payment_date) 0)))
               2) /\
      payment_loop64 (pred fuel) indexing_month contract end_date
                     (advance payment_date) (PENSION_AMOUNT64 x) = Some rest
  end.
Proof.
  destruct fuel as [|fuel]; cbn [payment_loop64]; [discriminate|].
  destruct (date_leb payment_date end_date).
  - destruct (payment_loop64 fuel _ _ _ _ _) as [rest|] eqn:Hrest; [|discriminate].
    intros [= <-]. cbn [pred PENSION_AMOUNT64]. auto.
  - intros [= <-]. reflexivity.
Qed.

(** C4: in the amounts the program computes, the amount of the first record
    is the initial amount multiplied by one plus the rate of the month of
    its date, then rounded to two decimals (multiplied by 100, rounded to
    the nearest integer, divided by 100); the amount of every later record
    is obtained in the same way from the rounded amount of the record
    before it and the rate of its own month. *)
Theorem amounts_indexed_then_rounded_binary64 (fuel : nat) (payment_date : date)
        (payment : float) (es : list entry64) :
  payment_loop64 fuel indexing_month contract end_date payment_date payment
  = Some es ->
  (forall x, es !! 0%nat = Some x ->
     DATE_OF_PAYMENT64 x = payment_date /\
     PENSION_AMOUNT64 x
     = PrimFloat.div
         (rint64
            (PrimFloat.mul
               (PrimFloat.mul payment
                  (PrimFloat.add 1
                     (dict_get64 indexing_month (month (DATE_OF_PAYMENT64 x)) 0)))
               100))
         100) /\
  (forall i x x', es !! i = Some x -> es !! S i = Some x' ->
     DATE_OF_PAYMENT64 x' = advance (DATE_OF_PAYMENT64 x) /\
     PENSION_AMOUNT64 x'
     = PrimFloat.div
         (rint64
            (PrimFloat.mul
               (PrimFloat.mul (PENSION_AMOUNT64 x)
                  (PrimFloat.add 1
                     (dict_get64 indexing_month (month (DATE_OF_PAYMENT64 x')) 0)))
               100))
         100).
Proof.
  intros Hloop. split.
  - intros x Hx. apply payment_loop64_inv in Hloop.
    destruct es as [|y rest]; [discriminate|].
    destruct Hloop as (_ & Hy & _). cbn in Hx. injection Hx as <-.
    subst y. cbn [DATE_OF_PAYMENT64 PENSION_AMOUNT64].
    split; [reflexivity | apply np_round64_two].
  - intros i. revert fuel payment_date payment es Hloop.
    induction i as [|i IH]; intros fuel d a es Hloop x x' Hx Hx';
      apply payment_loop64_inv in Hloop; destruct es as [|y rest]; try discriminate;
      destruct Hloop as (_ & Hy & Hrest).
    + cbn in Hx, Hx'. injection Hx as <-.
      apply payment_loop64_inv in Hrest. destruct rest as [|z rest']; [discriminate|].
      destruct Hrest as (_ & Hz & _). cbn in Hx'. injection Hx' as <-.
      rewrite Hz. cbn [DATE_OF_PAYMENT64 PENSION_AMOUNT64].
      split; [now rewrite Hy | apply np_round64_two].
    + cbn in Hx, Hx'. eapply IH; eauto.
Qed.

End PaymentLoop64.

(** The loop in binary64 records the contract numbers and dates of the loop
    in the exact reading: tests and dates do not look at the amounts. *)
Lemma payment_loop64_same_dates (fuel : nat) (indexing_month : gmap Z Q)
      (indexing_month64 : gmap Z float) (contract : Z)
      (end_date payment_date : date) (payment : Q) (payment64 : float) :
  option_map (List.map (fun x => (CONTRACT_NUMBER64 x, DATE_OF_PAYMENT64 x)))
             (payment_loop64 fuel indexing_month64 contract end_date
                             payment_date payment64)
  = option_map (List.map (fun x => (CONTRACT_NUMBER x, DATE_OF_PAYMENT x)))
               (payment_loop fuel indexing_month contract end_date
                             payment_date payment).
Proof.
  revert payment_date payment payment64.
  induction fuel as [|fuel IH]; intros d a a64; [reflexivity|].
  cbn [payment_loop payment_loop64].
  destruct (date_leb d end_date); [|reflexivity].
  specialize (IH (advance d)
                 (np_round (Qmult a (Qplus 1 (dict_get indexing_month (month d) 0))) 2)
                 (np_round64
                    (PrimFloat.mul a64
                       (PrimFloat.add 1 (dict_get64 indexing_month64 (month d) 0)))
                    2)).
  destruct (payment_loop64 fuel _ _ _ _ _) as [rest64|];
    destruct (payment_loop fuel _ _ _ _ _) as [rest|]; try discriminate;
    [|reflexivity].
  cbn in IH |- *. injection IH as ->. reflexivity.
Qed.

(** A contract without amount: every payment is recorded, with [nan] as
    its amount. *)
Example payment_loop64_nan :
  payment_loop64 10 (indexing_month64 0.05) 7 (mkdate 2024 3 16)
                 (mkdate 2024 1 1) nan
  = Some [mkentry64 7 (mkdate 2024 1 1) nan;
          mkentry64 7 (mkdate 2024 2 29) nan].
Proof. vm_compute. reflexivity. Qed.

(** Rounding in binary64 on the values the rounding is about: a product
    that is not a multiple of 0.01, ties (to the even hundredth), a negative
    amount, and an amount that differs from its exact reading (3994.50 at
    5% is 4194.225 exactly, which the exact reading rounds to 4194.22). *)
Example np_round64_values :
  np_round64 (PrimFloat.mul 2500.75 (PrimFloat.add 1 0.05)) 2 = 2625.79%float /\
  np_round64 0.125 2 = 0.12%float /\
  np_round64 0.375 2 = 0.38%float /\
  np_round64 (-0.125) 2 = (-0.12)%float /\
  np_round64 (PrimFloat.mul 3994.5 (PrimFloat.add 1 0.05)) 2 = 4194.23%float /\
  np_round (Qmult (39945 # 10) (Qplus 1 (5 # 100))) 2 = (419422 # 100)%Q.
Proof. repeat split; vm_compute; reflexivity. Qed.


(** ** Rounding *)










(** ** Payment dates *)

Lemma calculate_start_date_cases (p : params) (r : row) :
  valid_date (birthdate r) = true ->
  let b := birthdate r in
  let elapsed := rd_years (relativedelta_between (START_DATE p) b) in
  (pension_start r <= elapsed /\ _calculate_start_date p r = START_DATE p) \/
  (elapsed < pension_start r /\
   _calculate_start_date p r
   = month_end_of (mkdate (year b + pension_start r) (month b) 1)).
Proof.
  intros Hv b elapsed. apply valid_date_spec in Hv as [Hm Hd].
  unfold _calculate_start_date. fold b. fold elapsed.
  destruct (Z.leb_spec (pension_start r) elapsed); simpl; [left; auto|].
  right. split; [assumption|].
  rewrite rd_add_years. rewrite get_last_day_of_month_spec; simpl;
    [reflexivity | exact Hm | lia].
Qed.

Lemma calculate_start_date_valid (p : params) (r : row) :
  valid_date (START_DATE p) = true -> valid_date (birthdate r) = true ->
  valid_date (_calculate_start_date p r) = true.
Proof.
  intros Hs Hb.
  destruct (calculate_start_date_cases p r Hb) as [[_ ->]|[_ ->]]; [exact Hs|].
  apply month_end_of_valid; simpl. apply valid_date_spec in Hb. tauto.
Qed.

Lemma calculate_end_date_valid (p : params) (r : row) :
  valid_date (birthdate r) = true -> valid_date (calculate_end_date p r) = true.
Proof.
  intros Hb. unfold calculate_end_date. rewrite rd_add_years_one_day.
  apply next_day_valid. rewrite <- rd_add_years. now apply rd_add_years_valid.
Qed.

Lemma nth_payment_date_S (n : nat) (start : date) :
  nth_payment_date (S n) start = advance (nth_payment_date n start).
Proof.
  revert start. induction n as [|n IH]; intros start; [reflexivity|].
  change (nth_payment_date (S (S n)) start)
    with (nth_payment_date (S n) (advance start)).
  now rewrite IH.
Qed.

Lemma nth_payment_date_valid (n : nat) (start : date) :
  valid_date start = true -> valid_date (nth_payment_date n start) = true.
Proof.
  intros Hs. induction n as [|n IH]; [exact Hs|].
  rewrite nth_payment_date_S. apply advance_valid.
  apply valid_date_spec in IH. tauto.
Qed.

(** C3, as stated, fails: the first payment date of a contract already on
    pension is the report date as given, here 2024-01-01, which is not a
    month end. *)
Lemma first_payment_date_not_month_end :
  let p := mkparams (mkdate 2024 1 1) (5 # 100) 64 in
  let r := mkrow "M" (mkdate 1960 5 15) 60 1000 in
  payment_loop 10 (_indexing_month (init [(7, r)] p)) 7 (calculate_end_date p r)
               (_calculate_start_date p r) (pension_amount r)
  = Some [mkentry 7 (mkdate 2024 1 1) (105000 # 100);
          mkentry 7 (mkdate 2024 2 29) (105000 # 100);
          mkentry 7 (mkdate 2024 3 31) (105000 # 100);
          mkentry 7 (mkdate 2024 4 30) (105000 # 100)] /\
  is_month_end (DATE_OF_PAYMENT (mkentry 7 (mkdate 2024 1 1) (105000 # 100))) = false.
Proof. split; vm_compute; reflexivity. Qed.

(** C3, amended: the first payment date is the start date of the contract;
    every later payment date is the last day of the month that follows the
    month of the date before it, hence a month end and strictly later.  All
    payment dates are month ends when the start date is one, which holds
    for a contract not yet on pension and for a report date that is itself a
    month end. *)
Theorem payment_dates_monthly (fuel : nat) (indexing_month : gmap Z Q)
        (contract : Z) (end_date : date) (p : params) (r : row)
        (es : list entry) :
  valid_date (START_DATE p) = true -> valid_date (birthdate r) = true ->
  payment_loop fuel indexing_month contract end_date
               (_calculate_start_date p r) (pension_amount r) = Some es ->
  (forall x, es !! 0%nat = Some x ->
     DATE_OF_PAYMENT x = _calculate_start_date p r) /\
  (forall i x x', es !! i = Some x -> es !! S i = Some x' ->
     let d := DATE_OF_PAYMENT x in
     DATE_OF_PAYMENT x'
     = (if month d <? 12
        then mkdate (year d) (month d + 1) (days_in_month (year d) (month d + 1))
        else mkdate (year d + 1) 1 31) /\
     is_month_end (DATE_OF_PAYMENT x') = true /\
     date_ltb d (DATE_OF_PAYMENT x') = true) /\
  (is_month_end (START_DATE p) = true \/
   rd_years (relativedelta_between (START_DATE p) (birthdate r)) < pension_start r ->
   Forall (fun x => is_month_end (DATE_OF_PAYMENT x) = true) es).
Proof.
  intros Hs Hb Hloop.
  pose proof (calculate_start_date_valid p r Hs Hb) as Hv.
  assert (Hmonth : forall i x, es !! i = Some x ->
                     1 <= month (DATE_OF_PAYMENT x) <= 12).
  { intros i x Hx.
    destruct (payment_loop_lookup _ _ _ _ _ _ _ _ _ Hloop Hx) as (_ & -> & _).
    pose proof (nth_payment_date_valid i _ Hv) as H.
    apply valid_date_spec in H. tauto. }
  assert (Hnext : forall i x x', es !! i = Some x -> es !! S i = Some x' ->
                    DATE_OF_PAYMENT x' = advance (DATE_OF_PAYMENT x)).
  { intros i x x' Hx Hx'.
    now destruct (payment_loop_consecutive _ _ _ _ _ _ _ _ _ _ Hloop Hx Hx'). }
  split; [|split].
  - intros x Hx.
    now destruct (payment_loop_lookup _ _ _ _ _ _ _ _ _ Hloop Hx) as (_ & -> & _).
  - intros i x x' Hx Hx' d. rewrite (Hnext i x x' Hx Hx'). fold d.
    pose proof (Hmonth i x Hx) as Hm. fold d in Hm.
    split; [now apply advance_spec|].
    split; [now apply advance_is_month_end | now apply advance_increases].
  - intros Hcase. apply Forall_lookup. intros [|i] x Hx.
    + destruct (payment_loop_lookup _ _ _ _ _ _ _ _ _ Hloop Hx) as (_ & -> & _).
      simpl.
      destruct (calculate_start_date_cases p r Hb) as [[Hon ->]|[_ ->]].
      * destruct Hcase as [Hme|Hlt]; [exact Hme | lia].
      * apply month_end_of_is_month_end.
    + destruct (es !! i) as [y|] eqn:Hy.
      * rewrite (Hnext i y x Hy Hx). apply advance_is_month_end.
        now apply (Hmonth i).
      * apply lookup_ge_None in Hy. apply lookup_lt_Some in Hx. lia.
Qed.

(** ** Termination *)

Lemma advance_month_index (d : date) :
  1 <= month d <= 12 ->
  12 * year (advance d) + month (advance d) = 12 * year d + month d + 1.
Proof.
  intros Hm. rewrite advance_spec by assumption.
  destruct (Z.ltb_spec (month d) 12); simpl; lia.
Qed.

Lemma date_leb_month_index (a b : date) :
  1 <= month a <= 12 -> 1 <= month b <= 12 ->
  date_leb a b = true -> 12 * year a + month a <= 12 * year b + month b.
Proof. intros Ha Hb H. apply date_leb_le in H. lia. Qed.

(** The loop runs to its end on any budget of more than [k + 1] tests,
    [k] being the number of months from the month of the start date to the
    month of [end_date]. *)
Lemma payment_loop_terminates (indexing_month : gmap Z Q) (contract : Z)
      (end_date : date) (fuel : nat) (payment_date : date) (payment : Q) :
  1 <= month end_date <= 12 -> 1 <= month payment_date <= 12 ->
  (Z.to_nat (12 * year end_date + month end_date
             - (12 * year payment_date + month payment_date) + 1) < fuel)%nat ->
  exists es,
    payment_loop fuel indexing_month contract end_date payment_date payment
    = Some es.
Proof.
  intros He. revert payment_date payment.
  induction fuel as [|fuel IH]; intros d a Hd Hfuel; [lia|]. simpl.
  destruct (date_leb d end_date) eqn:Hle; [|eauto].
  pose proof (date_leb_month_index _ _ Hd He Hle) as Hidx.
  pose proof (advance_month_index d Hd) as Hadv.
  pose proof (advance_valid d Hd) as Hv. apply valid_date_spec in Hv as [Hm' _].
  destruct (IH (advance d)
               (np_round (Qmult a (Qplus 1 (dict_get indexing_month (month d) 0))) 2))
    as [rest ->]; [exact Hm' | lia | eauto].
Qed.

Lemma contracts_loop_fuel_mono (indexing_month : gmap Z Q) (fuel fuel' : nat)
      (rows : list (Z * dated_row)) (data : list entry) :
  (fuel <= fuel')%nat ->
  contracts_loop fuel indexing_month rows = Some data ->
  contracts_loop fuel' indexing_month rows = Some data.
Proof.
  intros Hle. revert data.
  induction rows as [|[c r] rows IH]; intros data; simpl; [auto|].
  destruct (payment_loop fuel _ _ _ _ _) as [es|] eqn:Hes; [|discriminate].
  rewrite (payment_loop_fuel_mono _ _ _ fuel fuel' _ _ es Hle Hes).
  destruct (contracts_loop fuel _ rows) as [rest|]; [|discriminate].
  now rewrite (IH rest eq_refl).
Qed.

Lemma contracts_loop_terminates (indexing_month : gmap Z Q)
      (rows : list (Z * dated_row)) :
  Forall (fun cr => valid_date (start_date (snd cr)) = true /\
                    valid_date (end_date (snd cr)) = true) rows ->
  exists n, forall fuel, (n <= fuel)%nat ->
    exists data, contracts_loop fuel indexing_month rows = Some data.
Proof.
  induction 1 as [|[c r] rows [Hs He] _ [n IH]]; simpl.
  - exists 0%nat. eauto.
  - simpl in Hs, He.
    apply valid_date_spec in Hs as [Hs _]. apply valid_date_spec in He as [He _].
    set (k := S (Z.to_nat (12 * year (end_date r) + month (end_date r)
                  - (12 * year (start_date r) + month (start_date r)) + 1))).
    exists (Nat.max k n). intros fuel Hfuel.
    destruct (payment_loop_terminates indexing_month c (end_date r) fuel
                (start_date r) (pension_amount (base r)) He Hs) as [es ->];
      [unfold k in Hfuel; lia|].
    destruct (IH fuel) as [rest ->]; [lia | eauto].
Qed.

Lemma preprocess_valid (self : PensionCalculator) :
  valid_date (START_DATE (_params self)) = true ->
  Forall (fun cr => valid_date (birthdate (snd cr)) = true) (_user_data self) ->
  Forall (fun cr => valid_date (start_date (snd cr)) = true /\
                    valid_date (end_date (snd cr)) = true)
         (_preprocess_contract_data self).
Proof.
  intros Hs Hb. unfold _preprocess_contract_data.
  induction Hb as [|[c r] rows Hr _ IH]; simpl; constructor; auto.
  simpl in *. split.
  - now apply calculate_start_date_valid.
  - now apply calculate_end_date_valid.
Qed.

(** Every per-contract loop that ran to its end left the start date behind
    [end_date] after as many steps as it recorded payments. *)
Lemma contracts_loop_stops (indexing_month : gmap Z Q) (fuel : nat)
      (rows : list (Z * dated_row)) (data : list entry) :
  contracts_loop fuel indexing_month rows = Some data ->
  Forall (fun cr => exists k,
            date_ltb (end_date (snd cr))
                     (nth_payment_date k (start_date (snd cr))) = true) rows.
Proof.
  revert data. induction rows as [|[c r] rows IH]; intros data; simpl;
    [constructor|].
  destruct (payment_loop fuel _ _ _ _ _) as [es|] eqn:Hes; [|discriminate].
  destruct (contracts_loop fuel _ rows) as [rest|]; [|discriminate].
  intros _. constructor; [|eapply IH; eauto].
  exists (length es). simpl. eapply payment_loop_stops; eauto.
Qed.

(** What a call of [calculate] on an object without cached frame does,
    by the lines of the frame and the records of the loops. *)
Lemma calculate_outcome (fuel : nat) (self : PensionCalculator)
      (data : list entry) :
  _result_df self = None ->
  contracts_loop fuel (_indexing_month self) (_preprocess_contract_data self)
  = Some data ->
  fst (calculate fuel self)
  = match _user_data self, data with
    | nil, _ => Raised ValueError
    | _ :: _, nil => Raised KeyError
    | _ :: _, _ :: _ => Returned (stable_sort data)
    end.
Proof.
  intros Hnone Hdata. unfold calculate, call_preprocess_contract_data.
  rewrite Hnone, Hdata. simpl.
  destruct (_user_data self); [reflexivity|]. destruct data; reflexivity.
Qed.

(** C9: for calendar dates in the birthdate column and the report date,
    some budget lets every per-contract loop reach a payment date after its
    end date; the call of [calculate] on a fresh object then ends, but not
    always by returning: it returns the sorted frame when a payment was
    recorded, and is aborted by [KeyError] when the portfolio has contracts
    and none of them a payment, by [ValueError] when it has no contract. *)
Theorem calculate_ends_returning_or_raising (user_data : list (Z * row))
        (p : params) :
  valid_date (START_DATE p) = true ->
  Forall (fun cr => valid_date (birthdate (snd cr)) = true) user_data ->
  let self := init user_data p in
  exists n, forall fuel, (n <= fuel)%nat ->
    exists data,
      contracts_loop fuel (_indexing_month self) (_preprocess_contract_data self)
      = Some data /\
      Forall (fun cr => exists k,
                date_ltb (end_date (snd cr))
                         (nth_payment_date k (start_date (snd cr))) = true)
             (_preprocess_contract_data self) /\
      fst (calculate fuel self)
      = match user_data, data with
        | nil, _ => Raised ValueError
        | _ :: _, nil => Raised KeyError
        | _ :: _, _ :: _ => Returned (stable_sort data)
        end.
Proof.
  intros Hs Hb self.
  destruct (contracts_loop_terminates (_indexing_month self)
              (_preprocess_contract_data self)) as [n Hn].
  { apply preprocess_valid; assumption. }
  exists n. intros fuel Hfuel. destruct (Hn fuel Hfuel) as [data Hdata].
  exists data. split; [exact Hdata|]. split.
  - eapply contracts_loop_stops; eauto.
  - apply (calculate_outcome fuel self data eq_refl Hdata).
Qed.

(** A portfolio of one contract whose holder is past the maximum age at the
    report date: the loop records nothing and [calculate] is aborted by
    [KeyError], whatever the budget. *)
Example calculate_nothing_to_pay :
  let self := init [(4, mkrow "M" (mkdate 1950 1 1) 60 1000)] example_params in
  valid_date (START_DATE example_params) = true /\
  valid_date (mkdate 1950 1 1) = true /\
  forall fuel, fst (calculate (S fuel) self) = Raised KeyError.
Proof. repeat split. Qed.

(** ** The sort *)

Lemma key_ltb_lt (a b : entry) :
  key_ltb a b = true <->
  (date_ltb (DATE_OF_PAYMENT a) (DATE_OF_PAYMENT b) = true \/
   (DATE_OF_PAYMENT a = DATE_OF_PAYMENT b /\ CONTRACT_NUMBER a < CONTRACT_NUMBER b)).
Proof.
  unfold key_ltb. rewrite orb_true_iff, andb_true_iff, date_eqb_eq, Z.ltb_lt.
  reflexivity.
Qed.

Lemma key_ltb_irrefl (a : entry) : key_ltb a a = false.
Proof.
  apply not_true_is_false. rewrite key_ltb_lt, date_ltb_lt. lia.
Qed.

Lemma date_trichotomy (a b : date) :
  date_ltb a b = true \/ a = b \/ date_ltb b a = true.
Proof.
  rewrite !date_ltb_lt. destruct a as [ya ma da], b as [yb mb db]; simpl.
  destruct (Z.lt_trichotomy ya yb) as [|[->|]]; auto.
  destruct (Z.lt_trichotomy ma mb) as [|[->|]]; auto 6.
  destruct (Z.lt_trichotomy da db) as [|[->|]]; auto 8.
Qed.

Lemma date_ltb_trans (a b c : date) :
  date_ltb a b = true -> date_ltb b c = true -> date_ltb a c = true.
Proof. rewrite !date_ltb_lt. lia. Qed.

Lemma key_ltb_trans (a b c : entry) :
  key_ltb a b = true -> key_ltb b c = true -> key_ltb a c = true.
Proof.
  rewrite !key_ltb_lt. intros [H1|[E1 L1]] [H2|[E2 L2]].
  - left. eapply date_ltb_trans; eauto.
  - left. now rewrite <- E2.
  - left. now rewrite E1.
  - right. split; [congruence | lia].
Qed.

Lemma key_ltb_asym (a b : entry) : key_ltb a b = true -> key_ltb b a = false.
Proof.
  intros H. apply not_true_is_false. intros H'.
  pose proof (key_ltb_trans _ _ _ H H') as Haa.
  rewrite key_ltb_irrefl in Haa. discriminate.
Qed.

(** Two records neither of which is before the other have the same key. *)
Lemma key_ltb_trichotomy (a b : entry) :
  key_ltb a b = false -> key_ltb b a = false ->
  DATE_OF_PAYMENT a = DATE_OF_PAYMENT b /\ CONTRACT_NUMBER a = CONTRACT_NUMBER b.
Proof.
  intros Hab Hba.
  apply not_true_iff_false in Hab, Hba. rewrite key_ltb_lt in Hab, Hba.
  destruct (date_trichotomy (DATE_OF_PAYMENT a) (DATE_OF_PAYMENT b))
    as [H|[H|H]]; [tauto | | tauto].
  split; [exact H|].
  assert (~ CONTRACT_NUMBER a < CONTRACT_NUMBER b) by (intros ?; apply Hab; auto).
  assert (~ CONTRACT_NUMBER b < CONTRACT_NUMBER a) by (intros ?; apply Hba; auto).
  lia.
Qed.

Lemma key_leb_total (a b : entry) : key_leb a b = true \/ key_leb b a = true.
Proof.
  unfold key_leb. destruct (key_ltb b a) eqn:H; [right|left; reflexivity].
  now rewrite (key_ltb_asym _ _ H).
Qed.

Lemma key_leb_trans (a b c : entry) :
  key_leb a b = true -> key_leb b c = true -> key_leb a c = true.
Proof.
  unfold key_leb. rewrite !negb_true_iff. intros Hba Hcb.
  apply not_true_is_false. intros Hca.
  destruct (key_ltb a b) eqn:Hab.
  - pose proof (key_ltb_trans _ _ _ Hca Hab) as H. congruence.
  - destruct (key_ltb_trichotomy _ _ Hab Hba) as [Hd Hc].
    apply key_ltb_lt in Hca. apply not_true_iff_false in Hcb.
    apply Hcb. apply key_ltb_lt. rewrite <- Hd, <- Hc. exact Hca.
Qed.

Lemma insert_sorted_perm (x : entry) (l : list entry) :
  Permutation (x :: l) (insert_sorted x l).
Proof.
  induction l as [|y l IH]; simpl; [reflexivity|].
  destruct (key_leb x y); [reflexivity|].
  rewrite perm_swap. now constructor.
Qed.

Lemma stable_sort_perm (l : list entry) : Permutation l (stable_sort l).
Proof.
  induction l as [|x l IH]; simpl; [reflexivity|].
  rewrite <- insert_sorted_perm. now constructor.
Qed.

Lemma insert_sorted_sorted (x : entry) (l : list entry) :
  StronglySorted (fun a b => key_leb a b = true) l ->
  StronglySorted (fun a b => key_leb a b = true) (insert_sorted x l).
Proof.
  induction 1 as [|y l Hl IH Hy]; simpl.
  - repeat constructor.
  - destruct (key_leb x y) eqn:Hxy.
    + constructor; [now constructor|]. constructor; [exact Hxy|].
      eapply Forall_impl; [exact Hy|]. intros z Hz; simpl.
      eapply key_leb_trans; eauto.
    + constructor; [exact IH|].
      rewrite <- insert_sorted_perm. constructor; [|exact Hy].
      destruct (key_leb_total x y); congruence.
Qed.

Lemma stable_sort_sorted (l : list entry) :
  StronglySorted (fun a b => key_leb a b = true) (stable_sort l).
Proof.
  induction l as [|x l IH]; simpl; [constructor | now apply insert_sorted_sorted].
Qed.

Lemma StronglySorted_lookup_lt {A : Type} (R : A -> A -> Prop) (l : list A)
      (i j : nat) (a b : A) :
  StronglySorted R l -> (i < j)%nat ->
  l !! i = Some a -> l !! j = Some b -> R a b.
Proof.
  intros Hl. revert i j. induction Hl as [|x l Hl IH Hx]; intros i j Hij Ha Hb.
  - discriminate.
  - destruct j as [|j]; [lia|]. simpl in Hb. destruct i as [|i]; simpl in Ha.
    + injection Ha as <-. rewrite Forall_forall in Hx. apply Hx.
      eapply list_elem_of_lookup_2; eauto.
    + apply (IH i j); auto. lia.
Qed.

Lemma nth_payment_date_month_index (n : nat) (start : date) :
  1 <= month start <= 12 ->
  12 * year (nth_payment_date n start) + month (nth_payment_date n start)
  = 12 * year start + month start + Z.of_nat n /\
  1 <= month (nth_payment_date n start) <= 12.
Proof.
  intros Hs. induction n as [|n [IH Hm]]; [simpl; lia|].
  rewrite nth_payment_date_S.
  pose proof (advance_month_index _ Hm) as Hadv.
  pose proof (advance_valid _ Hm) as Hv. apply valid_date_spec in Hv.
  lia.
Qed.

(** The records of one contract have pairwise different keys. *)
Lemma payment_loop_keys (indexing_month : gmap Z Q) (contract : Z)
      (end_date : date) (fuel : nat) (payment_date : date) (payment : Q)
      (es : list entry) :
  1 <= month payment_date <= 12 ->
  payment_loop fuel indexing_month contract end_date payment_date payment = Some es ->
  NoDup (List.map (fun x => (DATE_OF_PAYMENT x, CONTRACT_NUMBER x)) es).
Proof.
  intros Hs Hloop. apply NoDup_alt. intros i j k Hi Hj.
  rewrite lookup_map in Hi, Hj.
  destruct (es !! i) as [x|] eqn:Hx; [|discriminate].
  destruct (es !! j) as [y|] eqn:Hy; [|discriminate].
  simpl in Hi, Hj. rewrite <- Hj in Hi. injection Hi as Hd _.
  destruct (payment_loop_lookup _ _ _ _ _ _ _ _ _ Hloop Hx) as (_ & Dx & _).
  destruct (payment_loop_lookup _ _ _ _ _ _ _ _ _ Hloop Hy) as (_ & Dy & _).
  destruct (nth_payment_date_month_index i _ Hs) as [Ii _].
  destruct (nth_payment_date_month_index j _ Hs) as [Ij _].
  rewrite <- Dx, <- Dy, Hd in *. lia.
Qed.

Lemma contracts_loop_keys (indexing_month : gmap Z Q) (fuel : nat)
      (rows : list (Z * dated_row)) (data : list entry) :
  NoDup (List.map fst rows) ->
  Forall (fun cr => valid_date (start_date (snd cr)) = true /\
                    valid_date (end_date (snd cr)) = true) rows ->
  contracts_loop fuel indexing_month rows = Some data ->
  NoDup (List.map (fun x => (DATE_OF_PAYMENT x, CONTRACT_NUMBER x)) data) /\
  (forall x, In x data -> In (CONTRACT_NUMBER x) (List.map fst rows)).
Proof.
  intros Hnd Hv. revert data.
  induction Hv as [|[c r] rows [Hs _] _ IH]; intros data; simpl.
  - intros [= <-]. split; [constructor | contradiction].
  - simpl in Hnd, Hs. apply NoDup_cons in Hnd as [Hc Hnd].
    destruct (payment_loop fuel _ _ _ _ _) as [es|] eqn:Hes; [|discriminate].
    destruct (contracts_loop fuel _ rows) as [rest|]; [|discriminate].
    intros [= <-]. destruct (IH Hnd rest eq_refl) as [IHnd IHin].
    assert (Hes_c : forall x, In x es -> CONTRACT_NUMBER x = c).
    { intros x Hx. apply list_elem_of_In, list_elem_of_lookup in Hx as [i Hi].
      now destruct (payment_loop_lookup _ _ _ _ _ _ _ _ _ Hes Hi). }
    split.
    + rewrite List.map_app. apply NoDup_app. split; [|split].
      * apply valid_date_spec in Hs. eapply payment_loop_keys; [|eauto]. tauto.
      * intros k Hk Hk'. apply list_elem_of_In, in_map_iff in Hk as [x [<- Hx]].
        apply list_elem_of_In, in_map_iff in Hk' as [y [Hxy Hy]].
        injection Hxy as _ Hcy. apply Hc. apply list_elem_of_In.
        rewrite <- (Hes_c x Hx), <- Hcy. now apply IHin.
      * exact IHnd.
    + intros x Hx. apply in_app_or in Hx as [Hx|Hx].
      * left. symmetry. now apply Hes_c.
      * right. now apply IHin.
Qed.

Lemma preprocess_contracts (self : PensionCalculator) :
  List.map fst (_preprocess_contract_data self) = List.map fst (_user_data self).
Proof.
  unfold _preprocess_contract_data. rewrite List.map_map. reflexivity.
Qed.

(** What a call of [calculate] that returns has done. *)
Lemma calculate_returned (fuel : nat) (self self' : PensionCalculator)
      (df : DataFrame) :
  calculate fuel self = (Returned df, self') ->
  _result_df self = None /\
  self' = mkcalc (_user_data self) (Some (start_end_columns self))
                 (_params self) (_indexing_month self) (Some df) /\
  exists data,
    contracts_loop fuel (_indexing_month self) (_preprocess_contract_data self)
    = Some data /\
    data <> nil /\ df = stable_sort data.
Proof.
  unfold calculate, call_preprocess_contract_data.
  destruct (_result_df self) as [old|] eqn:Hres; simpl; [discriminate|].
  destruct (_user_data self) as [|cr rows] eqn:Hrows; [discriminate|].
  destruct (contracts_loop fuel _ _) as [data|]; [|discriminate].
  destruct data as [|x data]; simpl; [discriminate|].
  intros [= <- <-]. split; [reflexivity|]. split; [reflexivity|].
  exists (x :: data). split; [reflexivity|]. split; [discriminate | reflexivity].
Qed.

(** [data] holds the records of every contract, and nothing else. *)
Lemma contracts_loop_In (indexing_month : gmap Z Q) (fuel : nat)
      (rows : list (Z * dated_row)) (data : list entry) :
  contracts_loop fuel indexing_month rows = Some data ->
  forall x, In x data <->
    exists c r es,
      In (c, r) rows /\
      payment_loop fuel indexing_month c (end_date r) (start_date r)
                   (pension_amount (base r)) = Some es /\
      In x es.
Proof.
  revert data. induction rows as [|[c r] rows IH]; intros data; simpl.
  - intros [= <-] x. split; [contradiction|]. intros (? & ? & ? & [] & _).
  - destruct (payment_loop fuel _ _ _ _ _) as [es|] eqn:Hes; [|discriminate].
    destruct (contracts_loop fuel _ rows) as [rest|]; [|discriminate].
    intros [= <-] x. rewrite in_app_iff, (IH rest eq_refl x). split.
    + intros [Hx|(c' & r' & es' & Hin & Hloop & Hx)].
      * exists c, r, es. auto.
      * exists c', r', es'. auto.
    + intros (c' & r' & es' & [Heq|Hin] & Hloop & Hx).
      * injection Heq as <- <-. left. congruence.
      * right. exists c', r', es'. auto.
Qed.

(** The returned frame holds exactly the records of the contracts. *)
Lemma ledger_records (fuel : nat) (self self' : PensionCalculator)
      (df : DataFrame) :
  calculate fuel self = (Returned df, self') ->
  forall x, In x df <->
    exists c r es,
      In (c, r) (_preprocess_contract_data self) /\
      payment_loop fuel (_indexing_month self) c (end_date r) (start_date r)
                   (pension_amount (base r)) = Some es /\
      In x es.
Proof.
  intros Hcalc x.
  destruct (calculate_returned _ _ _ _ Hcalc) as (_ & _ & data & Hdata & _ & ->).
  rewrite <- (contracts_loop_In _ _ _ _ Hdata x).
  split; apply Permutation_in;
    [apply Permutation_sym|]; apply stable_sort_perm.
Qed.

(** C8: with pairwise different contract numbers, a record of the returned
    frame stands before another one exactly when its pair of payment date
    and contract number is the smaller one, dates compared first. *)
Theorem ledger_ordered_by_date_then_contract (fuel : nat)
        (self self' : PensionCalculator) (df : DataFrame) :
  NoDup (List.map fst (_user_data self)) ->
  valid_date (START_DATE (_params self)) = true ->
  Forall (fun cr => valid_date (birthdate (snd cr)) = true) (_user_data self) ->
  calculate fuel self = (Returned df, self') ->
  forall i j A B, df !! i = Some A -> df !! j = Some B ->
    ((i < j)%nat <-> key_ltb A B = true).
Proof.
  intros Hnd Hs Hb Hcalc.
  destruct (calculate_returned _ _ _ _ Hcalc) as (_ & _ & data & Hdata & _ & ->).
  destruct (contracts_loop_keys _ _ _ _
              ltac:(rewrite preprocess_contracts; exact Hnd)
              (preprocess_valid self Hs Hb) Hdata) as [Hkeys _].
  pose proof (stable_sort_sorted data) as Hsorted.
  assert (Hkeys' : NoDup (List.map (fun x => (DATE_OF_PAYMENT x, CONTRACT_NUMBER x))
                                   (stable_sort data))).
  { assert (Hperm : Permutation
                      (List.map (fun x => (DATE_OF_PAYMENT x, CONTRACT_NUMBER x)) data)
                      (List.map (fun x => (DATE_OF_PAYMENT x, CONTRACT_NUMBER x))
                                (stable_sort data)))
      by apply Permutation_map, stable_sort_perm.
    rewrite <- Hperm. exact Hkeys. }
  assert (Hsame : forall i j A B,
             stable_sort data !! i = Some A -> stable_sort data !! j = Some B ->
             DATE_OF_PAYMENT A = DATE_OF_PAYMENT B ->
             CONTRACT_NUMBER A = CONTRACT_NUMBER B -> i = j).
  { intros i j A B HA HB Hd Hc.
    apply (NoDup_lookup _ i j (DATE_OF_PAYMENT A, CONTRACT_NUMBER A) Hkeys').
    - rewrite lookup_map, HA. reflexivity.
    - rewrite lookup_map, HB. simpl. now rewrite Hd, Hc. }
  intros i j A B HA HB. split.
  - intros Hij.
    pose proof (StronglySorted_lookup_lt _ _ i j A B Hsorted Hij HA HB) as Hle.
    unfold key_leb in Hle. apply negb_true_iff in Hle.
    destruct (key_ltb A B) eqn:HAB; [reflexivity|].
    destruct (key_ltb_trichotomy _ _ HAB Hle) as [Hd Hc].
    pose proof (Hsame i j A B HA HB Hd Hc). lia.
  - intros HAB.
    destruct (Nat.lt_trichotomy i j) as [Hij|[Hij|Hij]]; [exact Hij| |].
    + subst j. rewrite HA in HB. injection HB as <-.
      rewrite key_ltb_irrefl in HAB. discriminate.
    + pose proof (StronglySorted_lookup_lt _ _ j i B A Hsorted Hij HB HA) as Hle.
      unfold key_leb in Hle. apply negb_true_iff in Hle. congruence.
Qed.

(** ** Calling [calculate] again *)

(** C2: a call of [calculate] that follows a call which returned the frame
    does not return it again: the test of [self._result_df] raises
    [ValueError]. *)
Theorem second_calculate_raises (fuel fuel' : nat)
        (self self' : PensionCalculator) (df : DataFrame) :
  calculate fuel self = (Returned df, self') ->
  calculate fuel' self' = (Raised ValueError, self').
Proof.
  intros Hcalc.
  destruct (calculate_returned _ _ _ _ Hcalc) as (_ & -> & _).
  reflexivity.
Qed.

(** ** The worked example *)

Lemma payment_dates_monthly_witness :
  (forall x, example_schedule !! 0%nat = Some x ->
     DATE_OF_PAYMENT x = _calculate_start_date example_params example_row) /\
  (forall i x x', example_schedule !! i = Some x ->
     example_schedule !! S i = Some x' ->
     let d := DATE_OF_PAYMENT x in
     DATE_OF_PAYMENT x'
     = (if month d <? 12
        then mkdate (year d) (month d + 1) (days_in_month (year d) (month d + 1))
        else mkdate (year d + 1) 1 31) /\
     is_month_end (DATE_OF_PAYMENT x') = true /\
     date_ltb d (DATE_OF_PAYMENT x') = true) /\
  (is_month_end (START_DATE example_params) = true \/
   rd_years (relativedelta_between (START_DATE example_params)
                                   (birthdate example_row))
   < pension_start example_row ->
   Forall (fun x => is_month_end (DATE_OF_PAYMENT x) = true) example_schedule).
Proof.
  apply (payment_dates_monthly 10 (_indexing_month example_calculator) 7
           (calculate_end_date example_params example_row)
           example_params example_row example_schedule);
    vm_compute; reflexivity.
Defined.

Lemma amounts_indexed_then_rounded_binary64_witness :
  (forall x, example_schedule64 !! 0%nat = Some x ->
     DATE_OF_PAYMENT64 x = mkdate 2024 1 1 /\
     PENSION_AMOUNT64 x
     = PrimFloat.div
         (rint64
            (PrimFloat.mul
               (PrimFloat.mul 3994.5
                  (PrimFloat.add 1
                     (dict_get64 (indexing_month64 0.05)
                                 (month (DATE_OF_PAYMENT64 x)) 0)))
               100))
         100) /\
  (forall i x x', example_schedule64 !! i = Some x ->
     example_schedule64 !! S i = Some x' ->
     DATE_OF_PAYMENT64 x' = advance (DATE_OF_PAYMENT64 x) /\
     PENSION_AMOUNT64 x'
     = PrimFloat.div
         (rint64
            (PrimFloat.mul
               (PrimFloat.mul (PENSION_AMOUNT64 x)
                  (PrimFloat.add 1
                     (dict_get64 (indexing_month64 0.05)
                                 (month (DATE_OF_PAYMENT64 x')) 0)))
               100))
         100).
Proof.
  apply (amounts_indexed_then_rounded_binary64 (indexing_month64 0.05) 7
           (mkdate 2024 5 16) 10 (mkdate 2024 1 1) 3994.5 example_schedule64).
  vm_compute; reflexivity.
Defined.

Lemma payment_dates_within_end_date_witness :
  Forall (fun x => date_leb (DATE_OF_PAYMENT x) (mkdate 2024 5 16) = true)
         example_schedule /\
  (forall i x, example_schedule !! i = Some x ->
     DATE_OF_PAYMENT x = nth_payment_date i (mkdate 2024 1 1)) /\
  date_leb (nth_payment_date (length example_schedule) (mkdate 2024 1 1))
           (mkdate 2024 5 16) = false /\
  (date_ltb (mkdate 2024 5 16) (mkdate 2024 1 1) = true -> example_schedule = nil).
Proof.
  apply (payment_dates_within_end_date (_indexing_month example_calculator) 7
           (mkdate 2024 5 16) 10 (mkdate 2024 1 1) 1000 example_schedule).
  vm_compute; reflexivity.
Defined.

(** A contract whose start date lies after its end date: no payment. *)
Example no_payment_when_start_after_end :
  let r := mkrow "F" (mkdate 1960 3 20) 64 1000 in
  _calculate_start_date example_params r = mkdate 2024 3 31 /\
  calculate_end_date example_params r = mkdate 2024 3 21 /\
  payment_loop 10 (_indexing_month example_calculator) 5
               (calculate_end_date example_params r)
               (_calculate_start_date example_params r) (pension_amount r)
  = Some nil.
Proof. repeat split. Qed.


Lemma calculate_ends_returning_or_raising_witness :
  let user_data := [(4, mkrow "M" (mkdate 1950 1 1) 60 1000)] in
  let self := init user_data example_params in
  exists n, forall fuel, (n <= fuel)%nat ->
    exists data,
      contracts_loop fuel (_indexing_month self) (_preprocess_contract_data self)
      = Some data /\
      Forall (fun cr => exists k,
                date_ltb (end_date (snd cr))
                         (nth_payment_date k (start_date (snd cr))) = true)
             (_preprocess_contract_data self) /\
      fst (calculate fuel self)
      = match user_data, data with
        | nil, _ => Raised ValueError
        | _ :: _, nil => Raised KeyError
        | _ :: _, _ :: _ => Returned (stable_sort data)
        end.
Proof.
  apply (calculate_ends_returning_or_raising
           [(4, mkrow "M" (mkdate 1950 1 1) 60 1000)] example_params).
  - reflexivity.
  - repeat constructor.
Defined.

Lemma ledger_ordered_by_date_then_contract_witness :
  (1 < 2)%nat <->
  key_ltb (mkentry 7 (mkdate 2024 1 1) (105000 # 100))
          (mkentry 3 (mkdate 2024 2 29) (262579 # 100)) = true.
Proof.
  apply (ledger_ordered_by_date_then_contract 10 example_calculator
           example_calculator_done
           example_ledger).
  - compute_done.
  - reflexivity.
  - repeat constructor.
  - vm_compute; reflexivity.
  - reflexivity.
  - reflexivity.
Defined.

Lemma second_calculate_raises_witness :
  let self' := example_calculator_done in
  calculate 10 self' = (Raised ValueError, self').
Proof.
  intros self'.
  apply (second_calculate_raises 10 10 example_calculator self' example_ledger).
  vm_compute; reflexivity.
Defined.

(** Two calls in a row on the example: the first returns the frame, the
    second raises. *)
Example calculate_twice :
  fst (calculate 10 example_calculator) = Returned example_ledger /\
  fst (calculate 10 (snd (calculate 10 example_calculator))) = Raised ValueError.
Proof. split; vm_compute; reflexivity. Qed.

(** An empty portfolio: [calculate] raises [ValueError] when the first
    column is assigned. *)
Example calculate_empty_portfolio :
  fst (calculate 10 (init nil example_params)) = Raised ValueError.
Proof. reflexivity. Qed.

(** * Further properties *)

(** ** Month-end normalisation *)

Lemma MonthEnd_is_month_end (d : date) : is_month_end (MonthEnd d) = true.
Proof.
  unfold MonthEnd. destruct (shift_year_month _ _ _) as [y m].
  unfold is_month_end; simpl. apply Z.eqb_refl.
Qed.

(** X1: whatever the date, the result of [_get_last_day_of_month] is a
    month end, and normalising it again changes nothing. *)
Theorem get_last_day_of_month_idempotent (d : date) :
  is_month_end (_get_last_day_of_month d) = true /\
  _get_last_day_of_month (_get_last_day_of_month d) = _get_last_day_of_month d.
Proof.
  assert (H : is_month_end (_get_last_day_of_month d) = true).
  { unfold _get_last_day_of_month.
    destruct (is_month_end d) eqn:Hd; simpl; [exact Hd|].
    apply MonthEnd_is_month_end. }
  split; [exact H|].
  unfold _get_last_day_of_month at 1. now rewrite H.
Qed.

(** X2: for a calendar date, [_get_last_day_of_month] stays in the year and
    month of the date, returns a calendar date that is not before it, and
    returns the date itself exactly when it is a month end. *)
Theorem get_last_day_of_month_same_month (d : date) :
  valid_date d = true ->
  let r := _get_last_day_of_month d in
  year r = year d /\ month r = month d /\
  day r = days_in_month (year d) (month d) /\
  valid_date r = true /\ date_leb d r = true /\
  (r = d <-> is_month_end d = true).
Proof.
  intros Hv r. apply valid_date_spec in Hv as [Hm Hd].
  assert (Hr : r = month_end_of d)
    by (apply get_last_day_of_month_spec; [exact Hm | lia]).
  rewrite Hr. unfold month_end_of; simpl.
  repeat split.
  - apply valid_date_spec; simpl. lia.
  - apply date_leb_le; simpl. lia.
  - intros <-. unfold is_month_end; simpl. apply Z.eqb_refl.
  - unfold is_month_end. intros H%Z.eqb_eq. destruct d; simpl in *.
    now rewrite H.
Qed.

Lemma get_last_day_of_month_same_month_witness :
  let d := mkdate 2024 2 10 in
  let r := _get_last_day_of_month d in
  year r = year d /\ month r = month d /\
  day r = days_in_month (year d) (month d) /\
  valid_date r = true /\ date_leb d r = true /\
  (r = d <-> is_month_end d = true).
Proof.
  apply (get_last_day_of_month_same_month (mkdate 2024 2 10)). reflexivity.
Defined.

(** ** The start date and the pension anniversary *)

(** X3: for calendar dates and a positive pension age, the start date is
    the report date exactly when the birthdate moved by [pension_start]
    years (29 February falling on 28 February in a common year) is not after
    the report date; otherwise it is the last day of the month of that
    anniversary. *)
Theorem start_date_by_anniversary (p : params) (r : row) :
  valid_date (START_DATE p) = true -> valid_date (birthdate r) = true ->
  0 < pension_start r ->
  let b := birthdate r in
  let y := year b + pension_start r in
  let anniversary := mkdate y (month b) (Z.min (days_in_month y (month b)) (day b)) in
  (date_leb anniversary (START_DATE p) = true ->
   _calculate_start_date p r = START_DATE p) /\
  (date_ltb (START_DATE p) anniversary = true ->
   _calculate_start_date p r = mkdate y (month b) (days_in_month y (month b))).
Proof.
  intros Hs Hb Hpos b y anniversary.
  pose proof (elapsed_years_reach_iff (START_DATE p) b (pension_start r) Hs Hb
                (or_introl Hpos)) as Hiff.
  rewrite rd_add_years in Hiff. fold y in Hiff. fold anniversary in Hiff.
  destruct (calculate_start_date_cases p r Hb) as [[Hon Heq]|[Hoff Heq]];
    fold b in Hon || fold b in Hoff.
  - split; [intros _; exact Heq|].
    intros Hlt. apply Hiff in Hon. unfold date_leb in Hon.
    rewrite Hlt in Hon. discriminate.
  - split.
    + intros Hle. apply Hiff in Hle. lia.
    + intros _. rewrite Heq. reflexivity.
Qed.

Lemma start_date_by_anniversary_witness :
  let p := example_params in
  let r := mkrow "F" (mkdate 1964 2 29) 61 1000 in
  let b := birthdate r in
  let y := year b + pension_start r in
  let anniversary := mkdate y (month b) (Z.min (days_in_month y (month b)) (day b)) in
  (date_leb anniversary (START_DATE p) = true ->
   _calculate_start_date p r = START_DATE p) /\
  (date_ltb (START_DATE p) anniversary = true ->
   _calculate_start_date p r = mkdate y (month b) (days_in_month y (month b))).
Proof.
  apply (start_date_by_anniversary example_params
           (mkrow "F" (mkdate 1964 2 29) 61 1000)); [reflexivity|reflexivity|reflexivity].
Defined.

(** X4: for calendar dates and a positive pension age, the start date is a
    calendar date that is neither before the report date nor before the
    day the pension age is reached. *)
Theorem start_date_not_before_report_or_pension_age (p : params) (r : row) :
  valid_date (START_DATE p) = true -> valid_date (birthdate r) = true ->
  0 < pension_start r ->
  valid_date (_calculate_start_date p r) = true /\
  date_leb (START_DATE p) (_calculate_start_date p r) = true /\
  date_leb (rd_add (mkrd (pension_start r) 0 0) (birthdate r))
           (_calculate_start_date p r) = true.
Proof.
  intros Hs Hb Hpos.
  split; [now apply calculate_start_date_valid|].
  pose proof (elapsed_years_reach_iff (START_DATE p) (birthdate r)
                (pension_start r) Hs Hb (or_introl Hpos)) as Hiff.
  pose proof (rd_add_years_valid (pension_start r) _ Hb) as Hav.
  apply valid_date_spec in Hav.
  destruct (calculate_start_date_cases p r Hb) as [[Hon ->]|[Hoff ->]].
  - split; [apply date_leb_le; lia|]. now apply Hiff.
  - assert (Hlt : date_leb (rd_add (mkrd (pension_start r) 0 0) (birthdate r))
                           (START_DATE p) = false).
    { apply not_true_is_false. intros H. apply Hiff in H. lia. }
    apply date_leb_gt, date_ltb_lt in Hlt.
    rewrite rd_add_years in *. simpl in *.
    split; apply date_leb_le; simpl; lia.
Qed.

Lemma start_date_not_before_report_or_pension_age_witness :
  valid_date (_calculate_start_date example_params example_row) = true /\
  date_leb (START_DATE example_params)
           (_calculate_start_date example_params example_row) = true /\
  date_leb (rd_add (mkrd (pension_start example_row) 0 0) (birthdate example_row))
           (_calculate_start_date example_params example_row) = true.
Proof.
  apply (start_date_not_before_report_or_pension_age example_params example_row);
    [reflexivity|reflexivity|reflexivity].
Defined.

(** ** How many payments *)

Lemma month_index_inj (y1 m1 y2 m2 : Z) :
  1 <= m1 <= 12 -> 1 <= m2 <= 12 ->
  12 * y1 + m1 = 12 * y2 + m2 -> y1 = y2 /\ m1 = m2.
Proof. lia. Qed.

(** After the first one, every payment date is the end of its month. *)
Lemma nth_payment_date_day (n : nat) (start : date) :
  1 <= month start <= 12 ->
  day (nth_payment_date (S n) start)
  = days_in_month (year (nth_payment_date (S n) start))
                  (month (nth_payment_date (S n) start)).
Proof.
  intros Hs. rewrite nth_payment_date_S.
  destruct (nth_payment_date_month_index n start Hs) as [_ Hm].
  apply Z.eqb_eq. now apply advance_is_month_end.
Qed.

(** X5: for calendar dates, the loop records [payments_due] payments: none
    when the start date is after the end date, one when both lie in the same
    month, and otherwise one for each month from the month of the start date
    to the month before that of the end date, plus one when the end date is
    the last day of its month. *)
Theorem number_of_payments (fuel : nat) (indexing_month : gmap Z Q)
        (contract : Z) (end_date payment_date : date) (payment : Q)
        (es : list entry) :
  valid_date payment_date = true -> valid_date end_date = true ->
  payment_loop fuel indexing_month contract end_date payment_date payment = Some es ->
  Z.of_nat (length es) = payments_due payment_date end_date.
Proof.
  intros Hs He Hloop.
  apply valid_date_spec in Hs as [Hsm Hsd]. apply valid_date_spec in He as [Hem Hed].
  pose proof (payment_loop_stops _ _ _ _ _ _ _ Hloop) as Hstop.
  unfold payments_due.
  destruct es as [|x rest].
  - simpl in *. now rewrite Hstop.
  - set (n := length rest). change (length (x :: rest)) with (S n) in *.
    assert (Hfirst : date_leb payment_date end_date = true).
    { apply payment_loop_inv in Hloop. tauto. }
    unfold date_leb in Hfirst. apply negb_true_iff in Hfirst. rewrite Hfirst.
    apply date_ltb_ge in Hfirst.
    destruct (nth_payment_date_month_index (S n) payment_date Hsm) as [Hidx Hm].
    pose proof (nth_payment_date_day n payment_date Hsm) as Hday.
    apply date_ltb_lt in Hstop.
    assert (Hlast : n = 0%nat \/
              (exists k, n = S k /\
                 date_leb (nth_payment_date (S k) payment_date) end_date = true)).
    { destruct n as [|k] eqn:Hn; [auto|]. right. exists k. split; [reflexivity|].
      destruct (lookup_lt_is_Some_2 (x :: rest) (S k)) as [z Hz];
        [simpl; fold n; lia|].
      destruct (payment_loop_lookup _ _ _ _ _ _ _ _ _ Hloop Hz) as (_ & <- & H).
      exact H. }
    assert (Hsame : forall d : date,
              year d = year end_date -> month d = month end_date ->
              days_in_month (year d) (month d)
              = days_in_month (year end_date) (month end_date))
      by (intros d -> ->; reflexivity).
    pose proof (Hsame (nth_payment_date (S n) payment_date)) as Hsame1.
    unfold is_month_end.
    destruct Hlast as [Hn0|(k & Hnk & Hle)].
    + rewrite Hn0 in *. clear Hsame.
      destruct (Z.eqb_spec (12 * year end_date + month end_date
                            - (12 * year payment_date + month payment_date)) 0);
        [reflexivity|].
      destruct (Z.eqb_spec (day end_date)
                           (days_in_month (year end_date) (month end_date))); lia.
    + destruct (nth_payment_date_month_index (S k) payment_date Hsm) as [Hidx' Hm'].
      pose proof (nth_payment_date_day k payment_date Hsm) as Hday'.
      pose proof (Hsame (nth_payment_date (S k) payment_date)) as Hsame2.
      apply date_leb_le in Hle. rewrite Hnk in *. clear Hsame.
      destruct (Z.eqb_spec (12 * year end_date + month end_date
                            - (12 * year payment_date + month payment_date)) 0);
        [lia|].
      destruct (Z.eqb_spec (day end_date)
                           (days_in_month (year end_date) (month end_date))); lia.
Qed.

Lemma number_of_payments_witness :
  Z.of_nat (length example_schedule)
  = payments_due (mkdate 2024 1 1) (mkdate 2024 5 16).
Proof.
  apply (number_of_payments 10 (_indexing_month example_calculator) 7
           (mkdate 2024 5 16) (mkdate 2024 1 1) 1000 example_schedule);
    [reflexivity | reflexivity | vm_compute; reflexivity].
Defined.

(** ** Amounts between two Januaries *)






(** ** Where the payments of a contract lie *)

Lemma nth_payment_date_not_before (n : nat) (start : date) :
  valid_date start = true -> date_leb start (nth_payment_date n start) = true.
Proof.
  intros Hv. apply valid_date_spec in Hv as [Hm Hd]. apply date_leb_le.
  destruct (nth_payment_date_month_index n start Hm) as [Hidx Hn].
  destruct n as [|n]; [simpl; lia|]. lia.
Qed.

Lemma date_leb_trans (a b c : date) :
  date_leb a b = true -> date_leb b c = true -> date_leb a c = true.
Proof. rewrite !date_leb_le. lia. Qed.

(** X7: for calendar dates and a positive pension age, no payment of a
    contract is dated before the report date, nor before the day its holder
    reaches the pension age. *)
Theorem no_payment_before_report_or_pension_age (fuel : nat)
        (indexing_month : gmap Z Q) (contract : Z) (end_date : date)
        (p : params) (r : row) (es : list entry) :
  valid_date (START_DATE p) = true -> valid_date (birthdate r) = true ->
  0 < pension_start r ->
  payment_loop fuel indexing_month contract end_date
               (_calculate_start_date p r) (pension_amount r) = Some es ->
  Forall (fun x =>
            date_leb (START_DATE p) (DATE_OF_PAYMENT x) = true /\
            date_leb (rd_add (mkrd (pension_start r) 0 0) (birthdate r))
                     (DATE_OF_PAYMENT x) = true) es.
Proof.
  intros Hs Hb Hpos Hloop.
  pose proof (elapsed_years_reach_iff (START_DATE p) (birthdate r)
                (pension_start r) Hs Hb (or_introl Hpos)) as Hiff.
  pose proof (calculate_start_date_valid p r Hs Hb) as Hv.
  assert (Hstart :
            date_leb (START_DATE p) (_calculate_start_date p r) = true /\
            date_leb (rd_add (mkrd (pension_start r) 0 0) (birthdate r))
                     (_calculate_start_date p r) = true).
  { pose proof (rd_add_years_valid (pension_start r) _ Hb) as Hav.
    apply valid_date_spec in Hav.
    destruct (calculate_start_date_cases p r Hb) as [[Hon ->]|[Hoff ->]].
    - split; [apply date_leb_le; lia|]. now apply Hiff.
    - assert (Hlt : date_leb (rd_add (mkrd (pension_start r) 0 0) (birthdate r))
                             (START_DATE p) = false).
      { apply not_true_is_false. intros H. apply Hiff in H. lia. }
      apply date_leb_gt, date_ltb_lt in Hlt.
      rewrite rd_add_years in *. simpl in *.
      split; apply date_leb_le; simpl; lia. }
  apply Forall_lookup. intros i x Hx.
  destruct (payment_loop_lookup _ _ _ _ _ _ _ _ _ Hloop Hx) as (_ & -> & _).
  pose proof (nth_payment_date_not_before i _ Hv) as Hi.
  destruct Hstart as [H1 H2].
  split; eapply date_leb_trans; eauto.
Qed.

Lemma no_payment_before_report_or_pension_age_witness :
  Forall (fun x =>
            date_leb (START_DATE example_params) (DATE_OF_PAYMENT x) = true /\
            date_leb (rd_add (mkrd (pension_start example_row) 0 0)
                             (birthdate example_row))
                     (DATE_OF_PAYMENT x) = true) example_schedule.
Proof.
  apply (no_payment_before_report_or_pension_age 10
           (_indexing_month example_calculator) 7 (mkdate 2024 5 16)
           example_params example_row example_schedule);
    [reflexivity | reflexivity | reflexivity | vm_compute; reflexivity].
Defined.

(** X8: a contract not yet on pension at the report date whose pension age
    is below the maximum age starts before its end date, so its loop records
    at least one payment. *)
Theorem not_yet_on_pension_is_paid (fuel : nat) (indexing_month : gmap Z Q)
        (contract : Z) (p : params) (r : row) (es : list entry) :
  valid_date (birthdate r) = true ->
  rd_years (relativedelta_between (START_DATE p) (birthdate r)) < pension_start r ->
  pension_start r < MAX_AGE p ->
  payment_loop fuel indexing_month contract (calculate_end_date p r)
               (_calculate_start_date p r) (pension_amount r) = Some es ->
  date_ltb (_calculate_start_date p r) (calculate_end_date p r) = true /\
  es <> nil.
Proof.
  intros Hb Hoff Hmax Hloop.
  assert (Hlt : date_ltb (_calculate_start_date p r) (calculate_end_date p r) = true).
  { destruct (calculate_start_date_cases p r Hb) as [[Hon _]|[_ ->]]; [lia|].
    unfold calculate_end_date. rewrite rd_add_years_one_day.
    apply date_ltb_lt. unfold next_day, month_end_of; simpl.
    repeat match goal with
           | |- context [if ?c then _ else _] => destruct c
           end; simpl; lia. }
  split; [exact Hlt|].
  intros ->. apply payment_loop_inv in Hloop. simpl in Hloop.
  apply date_leb_gt in Hloop.
  apply date_ltb_lt in Hlt, Hloop. lia.
Qed.

Lemma not_yet_on_pension_is_paid_witness :
  let r := mkrow "F" (mkdate 1961 1 10) 63 1000 in
  date_ltb (_calculate_start_date example_params r)
           (calculate_end_date example_params r) = true /\
  List.map (fun md : Z * Z =>
              mkentry 9 (mkdate 2024 (fst md) (snd md)) (105000 # 100))
           [(1, 31); (2, 29); (3, 31); (4, 30); (5, 31); (6, 30);
            (7, 31); (8, 31); (9, 30); (10, 31); (11, 30); (12, 31)] <> nil.
Proof.
  intros r.
  apply (not_yet_on_pension_is_paid 20 (_indexing_month example_calculator) 9
           example_params r).
  - reflexivity.
  - reflexivity.
  - reflexivity.
  - vm_compute. reflexivity.
Defined.

(** ** The returned frame *)

(** X9: whatever the contract numbers, the frame [calculate] returns is
    not empty, holds the records of the per-contract loops, each as often
    as it was recorded, and is sorted by payment date, then contract
    number. *)
Theorem ledger_is_sorted_permutation (fuel : nat)
        (self self' : PensionCalculator) (df : DataFrame) :
  calculate fuel self = (Returned df, self') ->
  exists data,
    contracts_loop fuel (_indexing_month self) (_preprocess_contract_data self)
    = Some data /\
    Permutation data df /\
    length df = length data /\
    df <> nil /\
    StronglySorted (fun a b => key_leb a b = true) df.
Proof.
  intros Hcalc.
  destruct (calculate_returned _ _ _ _ Hcalc) as (_ & _ & data & Hdata & Hne & ->).
  exists data. pose proof (stable_sort_perm data) as Hperm.
  split; [exact Hdata|]. split; [exact Hperm|].
  split; [symmetry; now apply Permutation_length|].
  split.
  - intros Hnil. rewrite Hnil in Hperm. apply Permutation_nil_r in Hperm. auto.
  - apply stable_sort_sorted.
Qed.

Lemma ledger_is_sorted_permutation_witness :
  exists data,
    contracts_loop 10 (_indexing_month example_calculator)
                   (_preprocess_contract_data example_calculator)
    = Some data /\
    Permutation data example_ledger /\
    length example_ledger = length data /\
    example_ledger <> nil /\
    StronglySorted (fun a b => key_leb a b = true) example_ledger.
Proof.
  apply (ledger_is_sorted_permutation 10 example_calculator
           example_calculator_done
           example_ledger).
  vm_compute; reflexivity.
Defined.

Lemma payment_loop_nil (indexing_month : gmap Z Q) (contract : Z)
      (end_date payment_date : date) (payment : Q) (fuel : nat) :
  date_ltb end_date payment_date = true ->
  payment_loop (S fuel) indexing_month contract end_date payment_date payment
  = Some nil.
Proof.
  intros H. simpl. unfold date_leb. now rewrite H.
Qed.

(** X10: on an object without cached frame, a portfolio without contracts
    makes [calculate] raise [ValueError] and leaves the object as it was; a
    portfolio with contracts that all start after their end date makes it
    raise [KeyError], after the two columns were written into [_user_data]
    and with no frame cached, and a call on the object so left raises
    [KeyError] again and changes nothing more. *)
Theorem calculate_without_payment_raises (fuel : nat) (self : PensionCalculator) :
  _result_df self = None ->
  (_user_data self = nil -> calculate fuel self = (Raised ValueError, self)) /\
  (_user_data self <> nil ->
   Forall (fun cr =>
             date_ltb (calculate_end_date (_params self) (snd cr))
                      (_calculate_start_date (_params self) (snd cr)) = true)
          (_user_data self) ->
   let self' := mkcalc (_user_data self) (Some (start_end_columns self))
                       (_params self) (_indexing_month self) None in
   calculate (S fuel) self = (Raised KeyError, self') /\
   calculate (S fuel) self' = (Raised KeyError, self')).
Proof.
  intros Hnone. split.
  - intros Hnil. unfold calculate, call_preprocess_contract_data.
    now rewrite Hnone, Hnil.
  - intros Hne Hall self'.
    assert (Hdata : contracts_loop (S fuel) (_indexing_month self)
                                   (_preprocess_contract_data self) = Some nil).
    { unfold _preprocess_contract_data.
      induction Hall as [|[c r] rows Hr _ IH]; [reflexivity|].
      cbn [List.map contracts_loop fst snd start_date end_date base].
      rewrite payment_loop_nil by exact Hr.
      destruct rows; [reflexivity|]. now rewrite IH. }
    assert (Hstep : forall s : PensionCalculator,
              _result_df s = None -> _user_data s = _user_data self ->
              _params s = _params self -> _indexing_month s = _indexing_month self ->
              calculate (S fuel) s = (Raised KeyError, self')).
    { intros s Hres Hud Hp Him.
      unfold calculate, call_preprocess_contract_data.
      assert (Hpre : _preprocess_contract_data s = _preprocess_contract_data self)
        by (unfold _preprocess_contract_data; now rewrite Hud, Hp).
      assert (Hcols : start_end_columns s = start_end_columns self)
        by (unfold start_end_columns; now rewrite Hpre).
      rewrite Hres, Hpre, Him, Hdata, Hcols, Hud, Hp. simpl.
      destruct (_user_data self); [contradiction | reflexivity]. }
    split; apply Hstep; reflexivity || exact Hnone.
Qed.

Lemma calculate_without_payment_raises_witness :
  let self := init [(4, mkrow "M" (mkdate 1950 1 1) 60 1000)] example_params in
  (_user_data self = nil -> calculate 0 self = (Raised ValueError, self)) /\
  (_user_data self <> nil ->
   Forall (fun cr =>
             date_ltb (calculate_end_date (_params self) (snd cr))
                      (_calculate_start_date (_params self) (snd cr)) = true)
          (_user_data self) ->
   let self' := mkcalc (_user_data self) (Some (start_end_columns self))
                       (_params self) (_indexing_month self) None in
   calculate 1 self = (Raised KeyError, self') /\
   calculate 1 self' = (Raised KeyError, self')).
Proof.
  intros self. apply (calculate_without_payment_raises 0 self). reflexivity.
Defined.

(** ** The payments of one contract inside the frame *)

Lemma insert_sorted_head (x : entry) (l : list entry) :
  Forall (fun z => key_leb x z = true) l -> insert_sorted x l = x :: l.
Proof.
  intros H. destruct H as [|y l Hy _]; [reflexivity|]. simpl. now rewrite Hy.
Qed.

Lemma stable_sort_sorted_id (l : list entry) :
  StronglySorted (fun a b => key_leb a b = true) l -> stable_sort l = l.
Proof.
  induction 1 as [|x l _ IH Hx]; [reflexivity|]. simpl.
  rewrite IH. now apply insert_sorted_head.
Qed.

Lemma Forall_filter_bool {A : Type} (P : A -> Prop) (f : A -> bool) (l : list A) :
  Forall P l -> Forall P (List.filter f l).
Proof.
  induction 1 as [|x l Hx _ IH]; simpl; [constructor|].
  destruct (f x); [constructor|]; assumption.
Qed.

Lemma insert_sorted_filter (f : entry -> bool) (x : entry) (l : list entry) :
  StronglySorted (fun a b => key_leb a b = true) l ->
  List.filter f (insert_sorted x l)
  = if f x then insert_sorted x (List.filter f l) else List.filter f l.
Proof.
  induction 1 as [|y l Hl IH Hy].
  - simpl. destruct (f x); reflexivity.
  - cbn [insert_sorted]. destruct (key_leb x y) eqn:Hxy.
    + cbn [List.filter]. destruct (f x); [|reflexivity].
      symmetry. apply insert_sorted_head.
      change (Forall (fun z => key_leb x z = true) (List.filter f (y :: l))).
      apply Forall_filter_bool. constructor; [exact Hxy|].
      eapply Forall_impl; [exact Hy|]. intros z Hz; simpl.
      eapply key_leb_trans; eauto.
    + cbn [List.filter]. rewrite IH.
      destruct (f y), (f x); try reflexivity.
      cbn [insert_sorted]. now rewrite Hxy.
Qed.

(** Filtering commutes with the sort. *)
Lemma stable_sort_filter (f : entry -> bool) (l : list entry) :
  List.filter f (stable_sort l) = stable_sort (List.filter f l).
Proof.
  induction l as [|x l IH]; [reflexivity|]. simpl.
  rewrite insert_sorted_filter by apply stable_sort_sorted.
  rewrite IH. destruct (f x); reflexivity.
Qed.

Lemma StronglySorted_of_lookup {A : Type} (R : A -> A -> Prop) (l : list A) :
  (forall i j a b, (i < j)%nat -> l !! i = Some a -> l !! j = Some b -> R a b) ->
  StronglySorted R l.
Proof.
  induction l as [|x l IH]; intros H; constructor.
  - apply IH. intros i j a b Hij Ha Hb. apply (H (S i) (S j)); auto. lia.
  - apply Forall_lookup. intros j b Hb. apply (H 0%nat (S j)); auto. lia.
Qed.

(** The records of one contract are in the order of the sort. *)
Lemma payment_loop_sorted (indexing_month : gmap Z Q) (contract : Z)
      (end_date : date) (fuel : nat) (payment_date : date) (payment : Q)
      (es : list entry) :
  1 <= month payment_date <= 12 ->
  payment_loop fuel indexing_month contract end_date payment_date payment = Some es ->
  StronglySorted (fun a b => key_leb a b = true) es.
Proof.
  intros Hs Hloop. apply StronglySorted_of_lookup. intros i j a b Hij Ha Hb.
  destruct (payment_loop_lookup _ _ _ _ _ _ _ _ _ Hloop Ha) as (_ & Da & _).
  destruct (payment_loop_lookup _ _ _ _ _ _ _ _ _ Hloop Hb) as (_ & Db & _).
  destruct (nth_payment_date_month_index i _ Hs) as [Ii Mi].
  destruct (nth_payment_date_month_index j _ Hs) as [Ij Mj].
  unfold key_leb. apply negb_true_iff, not_true_is_false.
  rewrite key_ltb_lt, date_ltb_lt, Da, Db. intros [H|[H _]]; [lia|].
  rewrite H in Ij. lia.
Qed.

Lemma filter_all {A : Type} (f : A -> bool) (l : list A) :
  (forall x, In x l -> f x = true) -> List.filter f l = l.
Proof.
  induction l as [|x l IH]; intros H; [reflexivity|]. simpl.
  rewrite (H x) by (now left). f_equal. apply IH. intros y Hy. apply H. now right.
Qed.

Lemma filter_none {A : Type} (f : A -> bool) (l : list A) :
  (forall x, In x l -> f x = false) -> List.filter f l = nil.
Proof.
  induction l as [|x l IH]; intros H; [reflexivity|]. simpl.
  rewrite (H x) by (now left). apply IH. intros y Hy. apply H. now right.
Qed.

Lemma payment_loop_contract (indexing_month : gmap Z Q) (contract : Z)
      (end_date : date) (fuel : nat) (payment_date : date) (payment : Q)
      (es : list entry) (x : entry) :
  payment_loop fuel indexing_month contract end_date payment_date payment = Some es ->
  In x es -> CONTRACT_NUMBER x = contract.
Proof.
  intros Hloop Hx. apply list_elem_of_In, list_elem_of_lookup in Hx as [i Hi].
  now destruct (payment_loop_lookup _ _ _ _ _ _ _ _ _ Hloop Hi).
Qed.

Lemma contracts_loop_filter (indexing_month : gmap Z Q) (fuel : nat)
      (rows : list (Z * dated_row)) (data : list entry)
      (c : Z) (r : dated_row) (es : list entry) :
  NoDup (List.map fst rows) ->
  contracts_loop fuel indexing_month rows = Some data ->
  In (c, r) rows ->
  payment_loop fuel indexing_month c (end_date r) (start_date r)
               (pension_amount (base r)) = Some es ->
  List.filter (fun x => CONTRACT_NUMBER x =? c) data = es.
Proof.
  intros Hnd. revert data.
  induction rows as [|[c' r'] rows IH]; intros data Hdata Hin Hes; [contradiction|].
  simpl in Hnd, Hdata. apply NoDup_cons in Hnd as [Hc' Hnd].
  destruct (payment_loop fuel _ c' _ _ _) as [es'|] eqn:Hes'; [|discriminate].
  destruct (contracts_loop fuel _ rows) as [rest|] eqn:Hrest; [|discriminate].
  injection Hdata as <-. rewrite List.filter_app.
  destruct Hin as [Heq|Hin].
  - injection Heq as -> ->. rewrite Hes in Hes'. injection Hes' as <-.
    rewrite filter_all, filter_none; [apply app_nil_r| |].
    + intros x Hx. apply Z.eqb_neq. intros Hxc. apply Hc'.
      apply list_elem_of_In. rewrite <- Hxc.
      destruct (proj1 (contracts_loop_In _ _ _ _ Hrest x) Hx)
        as (c1 & r1 & es1 & Hin1 & Hl1 & Hx1).
      rewrite (payment_loop_contract _ _ _ _ _ _ _ _ Hl1 Hx1).
      apply (in_map fst _ _ Hin1).
    + intros x Hx. apply Z.eqb_eq. eapply payment_loop_contract; eauto.
  - rewrite filter_none, (IH Hnd rest eq_refl Hin Hes); [reflexivity|].
    intros x Hx. apply Z.eqb_neq. intros Hxc. apply Hc'.
    apply list_elem_of_In.
    rewrite <- (payment_loop_contract _ _ _ _ _ _ _ _ Hes' Hx), Hxc.
    apply (in_map fst _ _ Hin).
Qed.

(** X11: with pairwise different contract numbers and calendar dates, the
    lines of the returned frame that carry the number of a contract are the
    payments its loop recorded, in the order it recorded them. *)
Theorem ledger_of_contract (fuel : nat) (self self' : PensionCalculator)
        (df : DataFrame) (c : Z) (r : dated_row) (es : list entry) :
  NoDup (List.map fst (_user_data self)) ->
  valid_date (START_DATE (_params self)) = true ->
  Forall (fun cr => valid_date (birthdate (snd cr)) = true) (_user_data self) ->
  calculate fuel self = (Returned df, self') ->
  In (c, r) (_preprocess_contract_data self) ->
  payment_loop fuel (_indexing_month self) c (end_date r) (start_date r)
               (pension_amount (base r)) = Some es ->
  List.filter (fun x => CONTRACT_NUMBER x =? c) df = es.
Proof.
  intros Hnd Hs Hb Hcalc Hin Hes.
  destruct (calculate_returned _ _ _ _ Hcalc) as (_ & _ & data & Hdata & _ & ->).
  rewrite stable_sort_filter.
  rewrite (contracts_loop_filter _ _ _ _ c r es
             ltac:(rewrite preprocess_contracts; exact Hnd) Hdata Hin Hes).
  apply stable_sort_sorted_id.
  eapply payment_loop_sorted; [|exact Hes].
  pose proof (preprocess_valid self Hs Hb) as Hv.
  rewrite Forall_forall in Hv.
  destruct (Hv (c, r) ltac:(now apply list_elem_of_In)) as [Hvs _].
  apply valid_date_spec in Hvs. tauto.
Qed.

Lemma ledger_of_contract_witness :
  List.filter (fun x => CONTRACT_NUMBER x =? 7) example_ledger = example_schedule.
Proof.
  apply (ledger_of_contract 10 example_calculator
           example_calculator_done
           example_ledger 7
           (mkdated example_row (mkdate 2024 1 1) (mkdate 2024 5 16))
           example_schedule).
  - compute_done.
  - reflexivity.
  - repeat constructor.
  - vm_compute; reflexivity.
  - left. reflexivity.
  - vm_compute; reflexivity.
Defined.

(** ** Export *)

(** X13: once [calculate] has returned on an object, [export_to_df] on that
    object raises [ValueError] and writes nothing, whatever the writer. *)
Theorem export_after_calculate_raises
        (to_excel : DataFrame -> string -> gmap string DataFrame ->
                    option exn * gmap string DataFrame)
        (fuel fuel' : nat)
        (self self' : PensionCalculator) (df : DataFrame)
        (name : string) (files : gmap string DataFrame) :
  calculate fuel self = (Returned df, self') ->
  export_to_df to_excel fuel' self' name files = (Raised ValueError, self', files).
Proof.
  intros Hcalc.
  destruct (calculate_returned _ _ _ _ Hcalc) as (_ & -> & _).
  reflexivity.
Qed.

Lemma export_after_calculate_raises_witness :
  let self' := example_calculator_done in
  export_to_df example_writer 10 self' "out.xlsx" ∅
  = (Raised ValueError, self', ∅).
Proof.
  intros self'.
  apply (export_after_calculate_raises example_writer 10 10 example_calculator
           self' example_ledger "out.xlsx" ∅).
  vm_compute; reflexivity.
Defined.

(** A first export on the example writes the returned frame; the writer is
    reached only then. *)
Example export_example :
  export_to_df example_writer 10 example_calculator "out.xlsx" ∅
  = (Returned tt, example_calculator_done, {[ "out.xlsx" := example_ledger ]}).
Proof. vm_compute. reflexivity. Qed.

(** ** The join of the two sheets *)

Lemma pension_lines_In (pension_data : list (Z * Q)) (c : Z) (a : Q) :
  In a (pension_lines pension_data c) <-> In (c, a) pension_data.
Proof.
  unfold pension_lines. rewrite in_map_iff. split.
  - intros ([c' a'] & <- & H). apply filter_In in H as [H Hc]. simpl in *.
    apply Z.eqb_eq in Hc. now subst c'.
  - intros H. exists (c, a). split; [reflexivity|].
    apply filter_In. split; [exact H|]. simpl. apply Z.eqb_refl.
Qed.

Lemma pension_lines_nil (pension_data : list (Z * Q)) (c : Z) :
  pension_lines pension_data c = nil <-> ~ In c (List.map fst pension_data).
Proof.
  split.
  - intros Hnil Hin. apply in_map_iff in Hin as ([c' a] & Hc & Hin).
    simpl in Hc. subst c'. apply pension_lines_In in Hin.
    rewrite Hnil in Hin. contradiction.
  - intros Hnot. destruct (pension_lines pension_data c) as [|a l] eqn:H;
      [reflexivity|].
    exfalso. apply Hnot. apply in_map_iff. exists (c, a). split; [reflexivity|].
    apply pension_lines_In. rewrite H. now left.
Qed.

(** X14: the join is a left join: a line [(c, j)] is in the joined frame
    exactly when its contract part is a line of the contract sheet under
    [c], and its amount is an amount of the pension sheet under [c], or is
    missing when the pension sheet has no line under [c].  No contract is
    dropped and none is invented. *)
Theorem create_user_data_is_left_join (contract_data : list (Z * contract_line))
        (pension_data : list (Z * Q)) (c : Z) (j : joined_line) :
  In (c, j) (_create_user_data contract_data pension_data) <->
  In (c, joined_contract j) contract_data /\
  match joined_amount j with
  | Some a => In (c, a) pension_data
  | None => ~ In c (List.map fst pension_data)
  end.
Proof.
  unfold _create_user_data. rewrite in_flat_map. split.
  - intros ([c' line] & Hin & Hj). cbn [fst snd] in Hj.
    destruct (pension_lines pension_data c') as [|a l] eqn:Hl.
    + destruct Hj as [Hj|[]]. injection Hj as -> <-. simpl.
      split; [exact Hin|]. now apply pension_lines_nil.
    + cbv beta iota in Hj.
      apply in_map_iff in Hj as (a' & Hj & Ha'). injection Hj as -> <-. simpl.
      split; [exact Hin|]. apply pension_lines_In. now rewrite Hl.
  - intros [Hin Hamt]. exists (c, joined_contract j). split; [exact Hin|].
    cbn [fst snd].
    destruct j as [line [a|]]; cbn [joined_contract joined_amount] in *.
    + apply pension_lines_In in Hamt.
      destruct (pension_lines pension_data c) as [|a0 l] eqn:Hl; [contradiction|].
      cbv beta iota. apply in_map_iff. exists a. auto.
    + apply pension_lines_nil in Hamt. rewrite Hamt. now left.
Qed.

Lemma pension_lines_unique (pension_data : list (Z * Q)) (c : Z) :
  NoDup (List.map fst pension_data) -> In c (List.map fst pension_data) ->
  exists a, pension_lines pension_data c = a :: nil /\ In (c, a) pension_data.
Proof.
  unfold pension_lines.
  induction pension_data as [|[c' a'] l IH]; intros Hnd Hin; [contradiction|].
  simpl in Hnd. apply NoDup_cons in Hnd as [Hc' Hnd]. simpl.
  destruct (Z.eqb_spec c' c) as [->|Hne].
  - exists a'. split; [|now left]. simpl. f_equal.
    replace (List.filter (fun ca : Z * Q => fst ca =? c) l) with (@nil (Z * Q));
      [reflexivity|].
    symmetry. apply filter_none. intros [c1 a1] H1. simpl. apply Z.eqb_neq.
    intros ->. apply Hc'. apply list_elem_of_In. apply (in_map fst _ _ H1).
  - destruct Hin as [Heq|Hin]; [simpl in Heq; contradiction|].
    destruct (IH Hnd Hin) as (a & Ha & Hina). exists a. split; [exact Ha|now right].
Qed.

(** X15: when the pension sheet has one line for every contract number of
    the contract sheet and no number twice, the joined frame has the lines
    of the contract sheet, one for one and in their order, each with the
    amount the pension sheet gives its number; no amount is missing. *)
Theorem create_user_data_complete (contract_data : list (Z * contract_line))
        (pension_data : list (Z * Q)) :
  NoDup (List.map fst pension_data) ->
  (forall c, In c (List.map fst contract_data) -> In c (List.map fst pension_data)) ->
  exists rows : list (Z * row),
    List.map with_amount (_create_user_data contract_data pension_data)
    = List.map Some rows /\
    List.map fst rows = List.map fst contract_data /\
    forall i c r, rows !! i = Some (c, r) ->
      contract_data !! i = Some (c, mkline (sex r) (birthdate r) (pension_start r)) /\
      In (c, pension_amount r) pension_data.
Proof.
  intros Hnd. unfold _create_user_data.
  induction contract_data as [|[c line] l IH]; intros Hall.
  - exists nil. split; [reflexivity|]. split; [reflexivity|].
    intros i c r H. discriminate.
  - destruct IH as (rows & Hrows & Hfst & Hlook).
    { intros c' Hc'. apply Hall. now right. }
    destruct (pension_lines_unique pension_data c Hnd (Hall c (or_introl eq_refl)))
      as (a & Ha & Hin).
    exists ((c, mkrow (line_sex line) (line_birthdate line)
                      (line_pension_start line) a) :: rows).
    split; [|split].
    + assert (E : forall (f : Z * contract_line -> list (Z * joined_line)) x xs,
                  List.flat_map f (x :: xs) = f x ++ List.flat_map f xs)
        by reflexivity.
      rewrite E, List.map_app, Hrows. cbn [fst snd]. rewrite Ha. reflexivity.
    + simpl. now rewrite Hfst.
    + intros [|i] c' r Hi; simpl in Hi.
      * injection Hi as <- <-. simpl. destruct line. auto.
      * simpl. now apply Hlook.
Qed.

Lemma create_user_data_complete_witness :
  exists rows : list (Z * row),
    List.map with_amount
      (_create_user_data example_contract_sheet example_pension_sheet)
    = List.map Some rows /\
    List.map fst rows = List.map fst example_contract_sheet /\
    forall i c r, rows !! i = Some (c, r) ->
      example_contract_sheet !! i
      = Some (c, mkline (sex r) (birthdate r) (pension_start r)) /\
      In (c, pension_amount r) example_pension_sheet.
Proof.
  apply (create_user_data_complete example_contract_sheet example_pension_sheet).
  - compute_done.
  - simpl. intros c [<-|[<-|[]]]; auto.
Defined.

(** The joined sheets of the example are the frame of the example. *)
Example create_user_data_example :
  List.map with_amount
    (_create_user_data example_contract_sheet example_pension_sheet)
  = List.map Some example_user_data.
Proof. reflexivity. Qed.

(** ** The lines of the returned frame *)

(** X16: for calendar dates in the birthdate column and the report date,
    every line of the returned frame carries the number of a contract of the
    portfolio and a calendar date. *)
Theorem ledger_lines_well_formed (fuel : nat) (self self' : PensionCalculator)
        (df : DataFrame) :
  valid_date (START_DATE (_params self)) = true ->
  Forall (fun cr => valid_date (birthdate (snd cr)) = true) (_user_data self) ->
  calculate fuel self = (Returned df, self') ->
  Forall (fun x =>
            In (CONTRACT_NUMBER x) (List.map fst (_user_data self)) /\
            valid_date (DATE_OF_PAYMENT x) = true) df.
Proof.
  intros Hs Hb Hcalc. apply Forall_forall. intros x Hx.
  apply list_elem_of_In in Hx.
  apply (ledger_records _ _ _ _ Hcalc) in Hx as (c & r & es & Hin & Hloop & Hx).
  apply list_elem_of_In, list_elem_of_lookup in Hx as [i Hi].
  destruct (payment_loop_lookup _ _ _ _ _ _ _ _ _ Hloop Hi) as (Hc & Hd & _).
  pose proof (preprocess_valid self Hs Hb) as Hv. rewrite Forall_forall in Hv.
  destruct (Hv (c, r) ltac:(now apply list_elem_of_In)) as [Hvs _].
  simpl in Hvs. split.
  - rewrite Hc, <- preprocess_contracts. apply (in_map fst _ _ Hin).
  - rewrite Hd. now apply nth_payment_date_valid.
Qed.

Lemma ledger_lines_well_formed_witness :
  Forall (fun x =>
            In (CONTRACT_NUMBER x) (List.map fst (_user_data example_calculator)) /\
            valid_date (DATE_OF_PAYMENT x) = true) example_ledger.
Proof.
  apply (ledger_lines_well_formed 10 example_calculator
           example_calculator_done example_ledger).
  - reflexivity.
  - repeat constructor.
  - vm_compute; reflexivity.
Defined.
